(** * external-dns providers: OrderedMap, Cloudflare Tunnel and OCI

  A shallow embedding of
    - provider/cloudflaretunnel/util/util.go        (OrderedMap),
    - provider/cloudflaretunnel/cloudflaretunnel.go (Records, ApplyChanges),
    - the OCI provider (newRecordOperation, operationsByZone, ApplyChanges),
  followed by the properties proved about them. *)

From stdpp Require Import gmap strings list fin_maps.
From Stdlib Require Import ZArith.

Local Open Scope Z_scope.
#[local] Set Warnings "-clear-no-such-hyp".

(** ** Go values shared by the packages *)

(** A Go [error] is represented by its message. *)
Definition Error := string.

(** The [endpoint] package's record types used by the providers. *)
Definition RecordTypeA : string := "A".
Definition RecordTypeCNAME : string := "CNAME".

(** [endpoint.Endpoint]: the fields the providers read. [RecordTTL] is an
  [int64] in the source; no arithmetic is done on it. *)
Record Endpoint := mkEndpoint {
DNSName : string;
Targets : list string;
RecordType : string;
RecordTTL : Z
}.

(** [plan.Changes] *)
Record Changes := mkChanges {
Create : list Endpoint;
UpdateOld : list Endpoint;
UpdateNew : list Endpoint;
Delete : list Endpoint
}.

(** The vendor SDK types of [github.com/cloudflare/cloudflare-go] that the
  code touches. Pointer fields are [option]s. *)
Module cloudflare.

Record OriginRequestConfig := mkOriginRequestConfig {
  NoTLSVerify : option bool;
  Http2Origin : option bool
}.

Record UnvalidatedIngressRule := mkRule {
  Hostname : string;
  Path : string;
  Service : string;
  OriginRequest : option OriginRequestConfig
}.

(** The zero value of the struct: what [var catchAll UnvalidatedIngressRule]
    holds and what a Go map lookup of a missing key returns. *)
Definition zeroRule : UnvalidatedIngressRule := mkRule "" "" "" None.

End cloudflare.

(** ** util.go: OrderedMap *)
Module util.
Import cloudflare.

Record OrderedMap := mkOrderedMap {
  data : gmap string UnvalidatedIngressRule;
  keys : list string
}.

Definition NewOrderedMap (cap : Z) : OrderedMap := mkOrderedMap ∅ [].

(** The loop
      for i, v := range n.keys { if v == h { n.keys = append(n.keys[:i], n.keys[i+1:]...); break } }
    drops the first occurrence of [h] and stops. *)
Fixpoint removeKey (h : string) (ks : list string) : list string :=
  match ks with
  | [] => []
  | v :: ks' => if decide (v = h) then ks' else v :: removeKey h ks'
  end.

Definition Add (s : UnvalidatedIngressRule) (n : OrderedMap) : OrderedMap :=
  match data n !! Hostname s with
  | None =>
      mkOrderedMap (<[Hostname s := s]> (data n)) (keys n ++ [Hostname s])
  | Some _ =>
      mkOrderedMap (<[Hostname s := s]> (data n))
                   (removeKey (Hostname s) (keys n) ++ [Hostname s])
  end.

Definition Update (s : UnvalidatedIngressRule) (n : OrderedMap) : OrderedMap :=
  match data n !! Hostname s with
  | Some _ => mkOrderedMap (<[Hostname s := s]> (data n)) (keys n)
  | None =>
      mkOrderedMap (<[Hostname s := s]> (data n)) (keys n ++ [Hostname s])
  end.

Definition Remove (s : UnvalidatedIngressRule) (n : OrderedMap) : OrderedMap :=
  match data n !! Hostname s with
  | Some _ =>
      mkOrderedMap (delete (Hostname s) (data n)) (removeKey (Hostname s) (keys n))
  | None => n
  end.

(** [n.data[v]] of a missing key is the zero value. *)
Definition Get (n : OrderedMap) : list UnvalidatedIngressRule :=
  (λ v, default zeroRule (data n !! v)) <$> keys n.

Definition Len (n : OrderedMap) : Z := Z.of_nat (length (keys n)).

(** A run of [Add] calls, in order, on a map. *)
Definition addAll (rs : list UnvalidatedIngressRule) (n : OrderedMap) : OrderedMap :=
  foldl (λ m r, Add r m) n rs.

(** The representation invariant the three mutators keep: the key list has
    no repetition, lists exactly the stored keys, and every value is stored
    under its own hostname. *)
Record wf (n : OrderedMap) : Prop := mkWf {
  wf_nodup : NoDup (keys n);
  wf_dom : ∀ k, k ∈ keys n ↔ is_Some (data n !! k);
  wf_host : ∀ k v, data n !! k = Some v → Hostname v = k
}.

(** What the specification expects of a run of [Add]s: a rule survives when
    no later rule has its hostname. *)
Fixpoint lastAdds (rs : list UnvalidatedIngressRule) : list UnvalidatedIngressRule :=
  match rs with
  | [] => []
  | r :: rs' =>
      if decide (Hostname r ∈ Hostname <$> rs') then lastAdds rs'
      else r :: lastAdds rs'
  end.

(** The exported interface is the only way to build or change a map (both
    fields are unexported), so every map the program holds is the result of
    a run of calls on a new one. *)
Inductive Call :=
  | CallAdd (s : UnvalidatedIngressRule)
  | CallUpdate (s : UnvalidatedIngressRule)
  | CallRemove (s : UnvalidatedIngressRule).

Definition call (c : Call) (n : OrderedMap) : OrderedMap :=
  match c with
  | CallAdd s => Add s n
  | CallUpdate s => Update s n
  | CallRemove s => Remove s n
  end.

Definition calls (cs : list Call) (n : OrderedMap) : OrderedMap :=
  foldl (λ m c, call c m) n cs.

End util.

(** ** Running provider code

    Provider methods talk to a vendor API and print to standard output. A
    method is a function of a state that holds the outside world and the
    list of what has been observed so far; it ends in one of four ways. *)
Module exec.

Inductive Outcome (A : Type) : Type :=
  | Ret (a : A)        (* the method returned; for an [error] result, nil *)
  | Fail (e : Error)   (* the method returned a non-nil error *)
  | Panic              (* run-time panic: index out of range *)
  | OutOfFuel.         (* the bound the model puts on a [for] loop was hit *)
Arguments Ret {A} a.
Arguments Fail {A} e.
Arguments Panic {A}.
Arguments OutOfFuel {A}.

(** What a vendor call hands back: a value, or a non-nil error. *)
Inductive Resp (A : Type) : Type :=
  | ok (a : A)
  | err (e : Error).
Arguments ok {A} a.
Arguments err {A} e.

Definition respError {A} (r : Resp A) : option Error :=
  match r with ok _ => None | err e => Some e end.

Definition M (S A : Type) : Type := S → S * Outcome A.

Definition ret {S A} (a : A) : M S A := λ st, (st, Ret a).
Definition fail {S A} (e : Error) : M S A := λ st, (st, Fail e).
Definition panic {S A} : M S A := λ st, (st, Panic).
Definition outOfFuel {S A} : M S A := λ st, (st, OutOfFuel).

Definition bind {S A B} (m : M S A) (k : A → M S B) : M S B :=
  λ st,
    match m st with
    | (st', Ret a) => k a st'
    | (st', Fail e) => (st', Fail e)
    | (st', Panic) => (st', Panic)
    | (st', OutOfFuel) => (st', OutOfFuel)
    end.

Definition gets {S A} (f : S → A) : M S A := λ st, (st, Ret (f st)).
Definition modify {S} (f : S → S) : M S unit := λ st, (f st, Ret tt).

(** Two ways to describe a method over a state that records events:
    whatever the start, it only adds events, and all of them satisfy [Q];
    whatever the start, it does not panic. *)
Definition emits {S E A} (events : S → list E) (Q : E → Prop) (m : M S A) : Prop :=
  ∀ st, ∃ new, events (fst (m st)) = events st ++ new ∧ Forall Q new.

Definition returns {S A} (P : A → Prop) (m : M S A) : Prop :=
  ∀ st st' a, m st = (st', Ret a) → P a.

Definition noPanic {S A} (m : M S A) : Prop :=
  ∀ st, snd (m st) ≠ Panic.

End exec.

Declare Scope exec_scope.
Delimit Scope exec_scope with exec.
Notation "'let*' x ':=' m 'in' k" := (exec.bind m (fun x => k))
  (at level 10, x pattern, m at level 100, k at level 200) : exec_scope.

(** ** The rest of the Cloudflare SDK surface used by the tunnel provider *)
Module cloudflaresdk.
Import cloudflare.

Record Zone := mkZone { zone_ID : string; zone_Name : string }.

Record ResultInfo := mkResultInfo {
  Page : Z;
  PerPage : Z;
  TotalPages : Z;
  Count : Z;
  Total : Z
}.

Record DNSRecord := mkDNSRecord {
  rec_ID : string;
  rec_Name : string;
  rec_Type : string;
  rec_Content : string;
  rec_ZoneID : string
}.

Record CreateDNSRecordParams := mkCreateDNSRecordParams {
  cp_Name : string;
  cp_TTL : Z;
  cp_Proxied : option bool;
  cp_Type : string;
  cp_Content : string;
  cp_ZoneID : string
}.

Record UpdateDNSRecordParams := mkUpdateDNSRecordParams {
  up_ID : string;
  up_Name : string;
  up_TTL : Z;
  up_Proxied : option bool;
  up_Type : string;
  up_Content : string
}.

Record TunnelConfiguration := mkTunnelConfiguration {
  Ingress : list UnvalidatedIngressRule;
  WarpRouting : option bool;
  ConfigOriginRequest : OriginRequestConfig
}.

Record TunnelConfigurationResult := mkTunnelConfigurationResult {
  res_TunnelID : string;
  res_Config : TunnelConfiguration;
  res_Version : Z
}.

Record TunnelConfigurationParams := mkTunnelConfigurationParams {
  par_TunnelID : string;
  par_Config : TunnelConfiguration
}.

(** [ResultInfo.Next] and [ResultInfo.Done] belong to the SDK; the provider
    only calls them. *)
Class Pagination := {
  Next : ResultInfo → ResultInfo;
  Done : ResultInfo → bool
}.

End cloudflaresdk.

(** ** What the providers use of the packages [provider] and [endpoint]

    Their sources are outside the files embedded here, so the providers are
    stated over any implementation of them. *)
Class ProviderPkg := {
  ZoneIDName : Type;
  ZoneIDName_empty : ZoneIDName;                          (* provider.ZoneIDName{} *)
  ZoneIDName_Add : string → string → ZoneIDName → ZoneIDName;  (* z.Add(zoneID, zoneName) *)
  FindZone : ZoneIDName → string → string * string;       (* z.FindZone(hostname) *)
  EnsureTrailingDot : string → string;
  SupportedRecordType : string → bool
}.

Class EndpointPkg := {
  NewEndpoint : string → string → list string → Endpoint; (* NewEndpoint(dnsName, recordType, targets...) *)
  IsConfigured : Z → bool                                 (* TTL.IsConfigured() *)
}.

(** ** cloudflaretunnel.go *)
Module cloudflaretunnel.
Import cloudflare cloudflaresdk util exec.
Local Open Scope exec_scope.

(** The methods of [CloudFlareAPIClient] the provider calls, as functions of
    the outside world [W]. ([UserDetails], [ZoneIDByName] and [ListZones] are
    declared by the interface and never called.) A successful
    [ListDNSRecords] returns a non-nil [*ResultInfo]. *)
Record CloudFlareAPIClient (W : Type) := mkClient {
  GetTunnelConfiguration :
    string → string → W → W * Resp TunnelConfigurationResult;
  UpdateTunnelConfiguration :
    string → TunnelConfigurationParams → W → W * Resp TunnelConfigurationResult;
  ListZonesContext : W → W * Resp (list Zone);
  ZoneDetails : string → W → W * Resp Zone;
  ListDNSRecords :
    string → ResultInfo → W → W * Resp (list DNSRecord * ResultInfo);
  CreateDNSRecord : string → CreateDNSRecordParams → W → W * Resp DNSRecord;
  DeleteDNSRecord : string → string → W → W * Resp unit;
  UpdateDNSRecord : string → UpdateDNSRecordParams → W → W * Resp DNSRecord
}.
Arguments GetTunnelConfiguration {W}.
Arguments UpdateTunnelConfiguration {W}.
Arguments ListZonesContext {W}.
Arguments ZoneDetails {W}.
Arguments ListDNSRecords {W}.
Arguments CreateDNSRecord {W}.
Arguments DeleteDNSRecord {W}.
Arguments UpdateDNSRecord {W}.

(** The vendor requests, with their arguments. *)
Inductive Request :=
  | ReqGetTunnelConfiguration (account tunnel : string)
  | ReqUpdateTunnelConfiguration (account : string) (params : TunnelConfigurationParams)
  | ReqListZonesContext
  | ReqZoneDetails (zoneID : string)
  | ReqListDNSRecords (zoneID : string) (params : ResultInfo)
  | ReqCreateDNSRecord (zoneID : string) (params : CreateDNSRecordParams)
  | ReqDeleteDNSRecord (zoneID recordID : string)
  | ReqUpdateDNSRecord (zoneID : string) (params : UpdateDNSRecordParams).

(** What an observer sees: a vendor call, with the error it returned if any,
    or a line written by [fmt.Println] / [fmt.Printf]. (The [logrus] calls
    write to the log only and are left out.) *)
Inductive Event :=
  | Called (r : Request) (failure : option Error)
  | Stdout (s : string).

Definition mutating (r : Request) : bool :=
  match r with
  | ReqUpdateTunnelConfiguration _ _
  | ReqCreateDNSRecord _ _
  | ReqDeleteDNSRecord _ _
  | ReqUpdateDNSRecord _ _ => true
  | _ => false
  end.

Definition mutatingEvent (ev : Event) : bool :=
  match ev with
  | Called r _ => mutating r
  | Stdout _ => false
  end.

(** An event that changes nothing at the vendor. *)
Definition quiet (ev : Event) : Prop := mutatingEvent ev = false.

(** The DNS-record calls among the events, in order. *)
Definition dnsRecordCall (ev : Event) : option Request :=
  match ev with
  | Called (ReqCreateDNSRecord z p) _ => Some (ReqCreateDNSRecord z p)
  | Called (ReqUpdateDNSRecord z p) _ => Some (ReqUpdateDNSRecord z p)
  | Called (ReqDeleteDNSRecord z i) _ => Some (ReqDeleteDNSRecord z i)
  | _ => None
  end.

Definition defaultOriginRequestConfig : OriginRequestConfig :=
  {| NoTLSVerify := Some true; Http2Origin := Some true |}.

Definition newline : string := String (Ascii.ascii_of_nat 10) EmptyString.

(** An event of the last phase of [ApplyChanges]: a DNS-record call or a
    printed line. *)
Definition dnsRecordEvent (ev : Event) : bool :=
  match ev with
  | Called (ReqCreateDNSRecord _ _) _
  | Called (ReqUpdateDNSRecord _ _) _
  | Called (ReqDeleteDNSRecord _ _) _
  | Stdout _ => true
  | Called _ _ => false
  end.

(** The line [ApplyChanges] prints when a DNS-record call fails. *)
Definition failureLine (r : Request) (e : Error) : string :=
  match r with
  | ReqCreateDNSRecord _ _ => "failed to create dns record: " +:+ e +:+ newline
  | ReqUpdateDNSRecord _ _ => "failed to update dns record: " +:+ e +:+ newline
  | ReqDeleteDNSRecord _ _ => "failed to delete dns record: " +:+ e +:+ newline
  | _ => ""
  end.

(** A run of events in which every failed call is followed at once by its
    printed line, and nothing else is printed. *)
Fixpoint failuresLogged (evs : list Event) : bool :=
  match evs with
  | [] => true
  | Called _ None :: evs' => failuresLogged evs'
  | Called r (Some e) :: evs' =>
      match evs' with
      | Stdout s :: evs'' => bool_decide (s = failureLine r e) && failuresLogged evs''
      | _ => false
      end
  | Stdout _ :: _ => false
  end.

Definition convertHttps (target : string) : string :=
  "https://" +:+ target +:+ ":443".

Section Provider.
Context {W : Type} `{ProviderPkg} `{EndpointPkg} `{Pagination}.

Record CloudFlareTunnelProvider := mkProvider {
  Client : CloudFlareAPIClient W;
  domainFilter : string → bool;       (* domainFilter.Match *)
  DryRun : bool;
  accountId : string;
  tunnelId : string;
  zoneIDFilter : list string;         (* zoneIDFilter.ZoneIDs *)
  DNSRecordsPerPage : Z
}.

(** The provider's [zoneNameIDMapper] is a Go map shared by all the copies
    of the provider, so it lives in the state. *)
Record State := mkState {
  world : W;
  events : list Event;
  zoneNameIDMapper : ZoneIDName
}.

Definition invoke {A} (req : Request) (f : W → W * Resp A) : M State (Resp A) :=
  λ st,
    let '(w, r) := f (world st) in
    (mkState w (events st ++ [Called req (respError r)]) (zoneNameIDMapper st),
     Ret r).

Definition print (s : string) : M State unit :=
  modify (λ st, mkState (world st) (events st ++ [Stdout s]) (zoneNameIDMapper st)).

Definition findZone (hostname : string) : M State string :=
  gets (λ st, fst (FindZone (zoneNameIDMapper st) hostname)).

Definition Records (p : CloudFlareTunnelProvider) : M State (list Endpoint) :=
  let* configResult := invoke (ReqGetTunnelConfiguration (accountId p) (tunnelId p))
                        (GetTunnelConfiguration (Client p) (accountId p) (tunnelId p)) in
  match configResult with
  | err e => fail ("failed to get tunnel configs: " +:+ e)
  | ok configResult =>
      ret ((λ config, NewEndpoint (Hostname config) RecordTypeA [Service config])
             <$> Ingress (res_Config configResult))
  end.

(** [Zones], first branch: one [ZoneDetails] call per configured zone id. *)
Fixpoint zoneDetailsLoop (p : CloudFlareTunnelProvider) (zoneIDs : list string)
    (result : list Zone) : M State (list Zone * option Error) :=
  match zoneIDs with
  | [] => ret (result, None)
  | zoneID :: zoneIDs' =>
      let* detailResponse := invoke (ReqZoneDetails zoneID) (ZoneDetails (Client p) zoneID) in
      match detailResponse with
      | err e => ret (result, Some e)
      | ok detailResponse => zoneDetailsLoop p zoneIDs' (result ++ [detailResponse])
      end
  end.

(** [len(p.zoneIDFilter.ZoneIDs) > 0 && p.zoneIDFilter.ZoneIDs[0] != ""] *)
Definition zoneIDFilterConfigured (zoneIDs : list string) : bool :=
  match zoneIDs with
  | [] => false
  | zoneID :: _ => negb (bool_decide (zoneID = ""))
  end.

Definition Zones (p : CloudFlareTunnelProvider) : M State (list Zone * option Error) :=
  if zoneIDFilterConfigured (zoneIDFilter p) then
    zoneDetailsLoop p (zoneIDFilter p) []
  else
    let* zonesResponse := invoke ReqListZonesContext (ListZonesContext (Client p)) in
    match zonesResponse with
    | err e => ret ([], Some e)
    | ok zonesResponse =>
        ret (filter (λ zone, domainFilter p (zone_Name zone) = true) zonesResponse, None)
    end.

Definition updateZoneIdMapper (p : CloudFlareTunnelProvider) : M State (option Error) :=
  let* (zones, e) := Zones p in
  match e with
  | Some e => ret (Some e)
  | None =>
      let* _ := modify (λ st, mkState (world st) (events st)
                (foldl (λ m z, ZoneIDName_Add (zone_ID z) (zone_Name z) m)
                       (zoneNameIDMapper st) zones)) in
      ret None
  end.

Definition getRecordID (records : list DNSRecord) (record : DNSRecord) : string :=
  match
    find (λ zoneRecord,
            bool_decide (rec_Name zoneRecord = rec_Name record)
            && bool_decide (rec_Type zoneRecord = rec_Type record)) records
  with
  | Some zoneRecord => rec_ID zoneRecord
  | None => ""
  end.

(** The [for] loop of [listDNSRecordsWithAutoPagination]; [fuel] bounds the
    number of pages. *)
Fixpoint listDNSRecordsPages (fuel : nat) (p : CloudFlareTunnelProvider)
    (zoneID : string) (records : list DNSRecord) (params : ResultInfo)
    : M State (Resp (list DNSRecord)) :=
  match fuel with
  | O => outOfFuel
  | S fuel' =>
      let* page := invoke (ReqListDNSRecords zoneID params)
                    (ListDNSRecords (Client p) zoneID params) in
      match page with
      | err e => ret (err e)
      | ok (pageRecords, resultInfo) =>
          let records := records ++ pageRecords in
          let params := Next resultInfo in
          if Done params then ret (ok records)
          else listDNSRecordsPages fuel' p zoneID records params
      end
  end.

Definition listDNSRecordsWithAutoPagination (fuel : nat)
    (p : CloudFlareTunnelProvider) (zoneID : string)
    : M State (Resp (list DNSRecord)) :=
  listDNSRecordsPages fuel p zoneID []
    (mkResultInfo 1 (DNSRecordsPerPage p) 0 0 0).


(** ApplyChanges, lines 129-135: the old ingress rules go into the ordered
    map until the first rule with an empty hostname, which is kept as
    [catchAll]; the [break] ends the loop there. *)
Fixpoint loadIngress (ingress : list UnvalidatedIngressRule)
    (ingressConfigs : OrderedMap) (catchAll : UnvalidatedIngressRule)
    : OrderedMap * UnvalidatedIngressRule :=
  match ingress with
  | [] => (ingressConfigs, catchAll)
  | v :: ingress' =>
      if decide (Hostname v = "") then (ingressConfigs, v)
      else loadIngress ingress' (Add v ingressConfigs) catchAll
  end.

Definition cfargotunnel (p : CloudFlareTunnelProvider) : string :=
  tunnelId p +:+ ".cfargotunnel.com".

(** ApplyChanges, lines 138-162. [createEndpoint.Targets[0]] panics on an
    empty slice. *)
Fixpoint createLoop (p : CloudFlareTunnelProvider) (create : list Endpoint)
    (ingressConfigs : OrderedMap) (dnsCreateParams : list CreateDNSRecordParams)
    : M State (OrderedMap * list CreateDNSRecordParams) :=
  match create with
  | [] => ret (ingressConfigs, dnsCreateParams)
  | createEndpoint :: create' =>
      if decide (RecordType createEndpoint ≠ RecordTypeA) then
        createLoop p create' ingressConfigs dnsCreateParams
      else
        match Targets createEndpoint with
        | [] => panic
        | target0 :: _ =>
            let ingressConfigs :=
              Add {| Hostname := DNSName createEndpoint;
                     Path := "";
                     Service := convertHttps target0;
                     OriginRequest := Some defaultOriginRequestConfig |}
                  ingressConfigs in
            let* zoneID := findZone (DNSName createEndpoint) in
            if decide (zoneID = "") then
              let* _ := print ("zoneid is empty. skipping..." +:+ newline) in
              createLoop p create' ingressConfigs dnsCreateParams
            else
              createLoop p create' ingressConfigs
                (dnsCreateParams ++
                 [ {| cp_Name := DNSName createEndpoint;
                      cp_TTL := 1;
                      cp_Proxied := Some true;
                      cp_Type := RecordTypeCNAME;
                      cp_Content := cfargotunnel p;
                      cp_ZoneID := zoneID |} ])
        end
  end.

Record dnsUpdateParam := mkDnsUpdateParam {
  upd_ZoneID : string;
  cfup : UpdateDNSRecordParams
}.

(** ApplyChanges, lines 169-208. *)
Fixpoint updateLoop (fuel : nat) (p : CloudFlareTunnelProvider)
    (updateNew : list Endpoint) (ingressConfigs : OrderedMap)
    (dnsUpdateParams : list dnsUpdateParam)
    : M State (OrderedMap * list dnsUpdateParam) :=
  match updateNew with
  | [] => ret (ingressConfigs, dnsUpdateParams)
  | desired :: updateNew' =>
      if decide (RecordType desired ≠ RecordTypeA) then
        updateLoop fuel p updateNew' ingressConfigs dnsUpdateParams
      else
        match Targets desired with
        | [] => panic
        | target0 :: _ =>
            let ingressConfigs :=
              Update {| Hostname := DNSName desired;
                        Path := "";
                        Service := convertHttps target0;
                        OriginRequest := Some defaultOriginRequestConfig |}
                     ingressConfigs in
            let* zoneID := findZone (DNSName desired) in
            if decide (zoneID = "") then
              let* _ := print ("zoneid is empty. skipping..." +:+ newline) in
              updateLoop fuel p updateNew' ingressConfigs dnsUpdateParams
            else
              let* records := listDNSRecordsWithAutoPagination fuel p zoneID in
              match records with
              | err e => fail e
              | ok records =>
                  let recordID :=
                    getRecordID records
                      {| rec_ID := "";
                         rec_Name := DNSName desired;
                         rec_Type := RecordTypeCNAME;
                         rec_Content := target0;
                         rec_ZoneID := zoneID |} in
                  updateLoop fuel p updateNew' ingressConfigs
                    (dnsUpdateParams ++
                     [ {| upd_ZoneID := zoneID;
                          cfup := {| up_ID := recordID;
                                     up_Name := DNSName desired;
                                     up_TTL := 1;
                                     up_Proxied := Some true;
                                     up_Type := RecordTypeCNAME;
                                     up_Content := cfargotunnel p |} |} ])
              end
        end
  end.

Record dnsDeleteParam := mkDnsDeleteParam {
  del_ZoneID : string;
  recordID : string
}.

(** ApplyChanges, lines 215-241. *)
Fixpoint deleteLoop (fuel : nat) (p : CloudFlareTunnelProvider)
    (delete : list Endpoint) (ingressConfigs : OrderedMap)
    (dnsDeleteParams : list dnsDeleteParam)
    : M State (OrderedMap * list dnsDeleteParam) :=
  match delete with
  | [] => ret (ingressConfigs, dnsDeleteParams)
  | deleteEndpoint :: delete' =>
      if decide (RecordType deleteEndpoint ≠ RecordTypeA) then
        deleteLoop fuel p delete' ingressConfigs dnsDeleteParams
      else
        let ingressConfigs :=
          Remove {| Hostname := DNSName deleteEndpoint;
                    Path := ""; Service := ""; OriginRequest := None |}
                 ingressConfigs in
        let* zoneID := findZone (DNSName deleteEndpoint) in
        if decide (zoneID = "") then
          let* _ := print ("zoneid is empty. skipping..." +:+ newline) in
          deleteLoop fuel p delete' ingressConfigs dnsDeleteParams
        else
          let* records := listDNSRecordsWithAutoPagination fuel p zoneID in
          match records with
          | err e => fail e
          | ok records =>
              deleteLoop fuel p delete' ingressConfigs
                (dnsDeleteParams ++
                 [ {| del_ZoneID := zoneID;
                      recordID :=
                        getRecordID records
                          {| rec_ID := "";
                             rec_Name := DNSName deleteEndpoint;
                             rec_Type := RecordTypeCNAME;
                             rec_Content := "";
                             rec_ZoneID := "" |} |} ])
          end
  end.

(** Everything [ApplyChanges] has computed when it reaches the [DryRun]
    test at line 248. *)
Record Prepared := mkPrepared {
  oldConfigResult : TunnelConfigurationResult;
  ingressConfigs : OrderedMap;
  catchAll : UnvalidatedIngressRule;
  tunnelConfigParam : TunnelConfigurationParams;
  dnsCreateParams : list CreateDNSRecordParams;
  dnsUpdateParams : list dnsUpdateParam;
  dnsDeleteParams : list dnsDeleteParam
}.

(** ApplyChanges, lines 116-246. *)
Definition prepare (fuel : nat) (p : CloudFlareTunnelProvider) (changes : Changes)
    : M State Prepared :=
  let* e := updateZoneIdMapper p in
  match e with
  | Some e => fail ("failed to update zoneidmapper: " +:+ e)
  | None =>
      let* oldConfigResult :=
        invoke (ReqGetTunnelConfiguration (accountId p) (tunnelId p))
               (GetTunnelConfiguration (Client p) (accountId p) (tunnelId p)) in
      match oldConfigResult with
      | err e => fail ("failed to get tunnel configs: " +:+ e)
      | ok oldConfigResult =>
          let oldIngress := Ingress (res_Config oldConfigResult) in
          let '(ingressConfigs, catchAll) :=
            loadIngress oldIngress
              (NewOrderedMap (Z.of_nat (length oldIngress))) zeroRule in
          let* (ingressConfigs, dnsCreateParams) :=
            createLoop p (Create changes) ingressConfigs [] in
          let* (ingressConfigs, dnsUpdateParams) :=
            updateLoop fuel p (UpdateNew changes) ingressConfigs [] in
          let* (ingressConfigs, dnsDeleteParams) :=
            deleteLoop fuel p (Delete changes) ingressConfigs [] in
          let tunnelConfigParam :=
            {| par_TunnelID := tunnelId p;
               par_Config :=
                 {| Ingress := Get ingressConfigs ++ [catchAll];
                    WarpRouting := WarpRouting (res_Config oldConfigResult);
                    ConfigOriginRequest :=
                      ConfigOriginRequest (res_Config oldConfigResult) |} |} in
          ret (mkPrepared oldConfigResult ingressConfigs catchAll tunnelConfigParam
                 dnsCreateParams dnsUpdateParams dnsDeleteParams)
      end
  end.

(** ApplyChanges, lines 258-266. *)
Fixpoint runCreates (p : CloudFlareTunnelProvider)
    (dnsCreateParams : list CreateDNSRecordParams) : M State unit :=
  match dnsCreateParams with
  | [] => ret tt
  | createParam :: rest =>
      let zoneID := cp_ZoneID createParam in
      let* r := invoke (ReqCreateDNSRecord zoneID createParam)
                       (CreateDNSRecord (Client p) zoneID createParam) in
      let* _ :=
        match r with
        | err e => print ("failed to create dns record: " +:+ e +:+ newline)
        | ok _ => ret tt
        end in
      runCreates p rest
  end.

(** ApplyChanges, lines 268-276. *)
Fixpoint runUpdates (p : CloudFlareTunnelProvider)
    (dnsUpdateParams : list dnsUpdateParam) : M State unit :=
  match dnsUpdateParams with
  | [] => ret tt
  | updateParam :: rest =>
      let zoneID := upd_ZoneID updateParam in
      let* r := invoke (ReqUpdateDNSRecord zoneID (cfup updateParam))
                       (UpdateDNSRecord (Client p) zoneID (cfup updateParam)) in
      let* _ :=
        match r with
        | err e => print ("failed to update dns record: " +:+ e +:+ newline)
        | ok _ => ret tt
        end in
      runUpdates p rest
  end.

(** ApplyChanges, lines 278-286. *)
Fixpoint runDeletes (p : CloudFlareTunnelProvider)
    (dnsDeleteParams : list dnsDeleteParam) : M State unit :=
  match dnsDeleteParams with
  | [] => ret tt
  | deleteParam :: rest =>
      let zoneID := del_ZoneID deleteParam in
      let* r := invoke (ReqDeleteDNSRecord zoneID (recordID deleteParam))
                       (DeleteDNSRecord (Client p) zoneID (recordID deleteParam)) in
      let* _ :=
        match r with
        | err e => print ("failed to delete dns record: " +:+ e +:+ newline)
        | ok _ => ret tt
        end in
      runDeletes p rest
  end.

(** ApplyChanges, lines 258-288: the three loops and [return nil]. *)
Definition runDNS (p : CloudFlareTunnelProvider) (pre : Prepared) : M State unit :=
  let* _ := runCreates p (dnsCreateParams pre) in
  let* _ := runUpdates p (dnsUpdateParams pre) in
  let* _ := runDeletes p (dnsDeleteParams pre) in
  ret tt.

(** ApplyChanges, lines 252-288. *)
Definition push (p : CloudFlareTunnelProvider) (pre : Prepared) : M State unit :=
  let* r := invoke (ReqUpdateTunnelConfiguration (accountId p) (tunnelConfigParam pre))
                   (UpdateTunnelConfiguration (Client p) (accountId p)
                      (tunnelConfigParam pre)) in
  match r with
  | err e => fail ("failed to update tunnel configs: " +:+ e)
  | ok _ => runDNS p pre
  end.

Definition ApplyChanges (fuel : nat) (p : CloudFlareTunnelProvider)
    (changes : Changes) : M State unit :=
  let* pre := prepare fuel p changes in
  if DryRun p then ret tt else push p pre.

(** The ordered-map calls [ApplyChanges] makes for a set of changes, after
    the old rules are loaded: one [Add] per created A endpoint, then one
    [Update] per updated one, then one [Remove] per deleted one. *)
Definition isA (e : Endpoint) : Prop := RecordType e = RecordTypeA.

#[global] Instance isA_dec e : Decision (isA e) := decide (RecordType e = RecordTypeA).

Definition desiredRule (e : Endpoint) : UnvalidatedIngressRule :=
  {| Hostname := DNSName e;
     Path := "";
     Service := convertHttps (default "" (head (Targets e)));
     OriginRequest := Some defaultOriginRequestConfig |}.

Definition removedRule (e : Endpoint) : UnvalidatedIngressRule :=
  {| Hostname := DNSName e; Path := ""; Service := ""; OriginRequest := None |}.

Definition ingressCalls (changes : Changes) : list Call :=
  ((λ e, CallAdd (desiredRule e)) <$> filter isA (Create changes))
  ++ ((λ e, CallUpdate (desiredRule e)) <$> filter isA (UpdateNew changes))
  ++ ((λ e, CallRemove (removedRule e)) <$> filter isA (Delete changes)).

(** What one of the three loops does: it returns, having made the queued
    calls [reqs] in order and printed a line after each failed one. *)
Definition ranAll (m : M State unit) (reqs : list Request) : Prop :=
  ∀ st, ∃ st' new,
    m st = (st', Ret tt)
    ∧ events st' = events st ++ new
    ∧ omap dnsRecordCall new = reqs
    ∧ failuresLogged new = true
    ∧ Forall (λ ev, dnsRecordEvent ev = true) new.

(** The calls queued by the preparation, in the order of the three loops. *)
Definition queuedCalls (pre : Prepared) : list Request :=
  ((λ cp, ReqCreateDNSRecord (cp_ZoneID cp) cp) <$> dnsCreateParams pre)
  ++ ((λ up, ReqUpdateDNSRecord (upd_ZoneID up) (cfup up)) <$> dnsUpdateParams pre)
  ++ ((λ dp, ReqDeleteDNSRecord (del_ZoneID dp) (recordID dp)) <$> dnsDeleteParams pre).

(** An A endpoint must have a target for [Targets[0]] to exist. *)
Definition hasTarget (e : Endpoint) : Prop :=
  RecordType e = RecordTypeA → Targets e ≠ [].

Definition lacksTarget (e : Endpoint) : Prop :=
  RecordType e = RecordTypeA ∧ Targets e = [].

End Provider.
Arguments CloudFlareTunnelProvider W : clear implicits.
Arguments State W {_}.
End cloudflaretunnel.

(** Go leaves the order of a [range] over a map open, and two loops over one
    map need not agree. The order is a parameter: any enumeration of the
    map's entries, one per loop ([site] tells the loops apart). *)
Class MapIteration := {
  rangeOrder : ∀ V : Type, nat → gmap string V → list (string * V);
  rangeOrder_perm : ∀ V site (m : gmap string V), rangeOrder V site m ≡ₚ map_to_list m
}.
Arguments rangeOrder {_ V} site m.

(** ** The OCI provider *)
Module oci.
Import exec.
Local Open Scope exec_scope.

Definition ociRecordTTL : Z := 300.

(** The [dns] SDK types. The code dereferences their pointer fields without
    a nil test and fills every one it builds, so they are plain values. *)
Inductive RecordOperationOperationEnum :=
  | RecordOperationOperationAdd
  | RecordOperationOperationRemove.

Record RecordOperation := mkRecordOperation {
  Domain : string;
  Rdata : string;
  Ttl : Z;
  Rtype : string;
  Operation : RecordOperationOperationEnum
}.

Record ZoneSummary := mkZoneSummary { Id : string; Name : string }.

Record ListZonesRequest := mkListZonesRequest {
  lz_CompartmentId : string;
  lz_Scope : string;
  lz_Page : option string
}.

Record ListZonesResponse := mkListZonesResponse {
  Items : list ZoneSummary;
  OpcNextPage : option string
}.

Record PatchZoneRecordsRequest := mkPatchZoneRecordsRequest {
  pz_CompartmentId : string;
  pz_ZoneNameOrId : string;
  pz_Items : list RecordOperation
}.

(** [dns.GetGetZoneScopeEnumValues()] *)
Class DnsSDK := { GetGetZoneScopeEnumValues : list string }.

(** [ociDNSClient], without [GetZoneRecords], which [ApplyChanges] never
    calls. *)
Record ociDNSClient (W : Type) := mkOciClient {
  ListZones : ListZonesRequest → W → W * Resp ListZonesResponse;
  PatchZoneRecords : PatchZoneRecordsRequest → W → W * Resp unit
}.
Arguments ListZones {W}.
Arguments PatchZoneRecords {W}.

Inductive Request :=
  | ReqListZones (request : ListZonesRequest)
  | ReqPatchZoneRecords (request : PatchZoneRecordsRequest).

Inductive Event :=
  | Called (r : Request) (failure : option Error).

Definition isPatch (ev : Event) : bool :=
  match ev with
  | Called (ReqPatchZoneRecords _) _ => true
  | _ => false
  end.

(** A call that lists zones. *)
Definition listing (ev : Event) : Prop := isPatch ev = false.

Definition patchOk (request : PatchZoneRecordsRequest) : Event :=
  Called (ReqPatchZoneRecords request) None.

Definition failedPatch (ev : Event) : bool :=
  match ev with
  | Called (ReqPatchZoneRecords _) (Some _) => true
  | _ => false
  end.

(** Modelled from the spec: the [zoneCache] type with its [Expired] and
    [Reset] methods is declared outside the embedded files. The spec's
    words: an entry is a mapping from zone id to zone summary, plus a
    creation timestamp and a fixed duration; [Expired] is true if never
    populated or if now - created > duration; [Reset] overwrites the cached
    mapping and timestamp. *)
Record zoneCache := mkZoneCache {
  duration : Z;
  cached : option (Z * gmap string ZoneSummary)
}.

Definition Expired (now : Z) (z : zoneCache) : bool :=
  match cached z with
  | None => true
  | Some (created, _) => bool_decide (duration z < now - created)
  end.

Definition Reset (now : Z) (zones : gmap string ZoneSummary) (z : zoneCache) : zoneCache :=
  mkZoneCache (duration z) (Some (now, zones)).

Definition cachedZones (z : zoneCache) : gmap string ZoneSummary :=
  match cached z with
  | None => ∅
  | Some (_, zones) => zones
  end.

Section Provider.
Context {W : Type} `{ProviderPkg} `{EndpointPkg} `{DnsSDK} `{MapIteration}.
(** [time.Now()] *)
Context (clock : W → Z).

Record OCIProvider := mkOCIProvider {
  client : ociDNSClient W;
  CompartmentID : string;             (* cfg.CompartmentID *)
  domainFilter : string → bool;       (* domainFilter.Match *)
  zoneIDFilter : string → bool;       (* zoneIDFilter.Match *)
  zoneScope : string;
  dryRun : bool
}.

(** [p.zoneCache] is a pointer: the cache outlives a call. *)
Record State := mkState {
  world : W;
  events : list Event;
  cache : zoneCache
}.

Definition invoke {A} (req : Request) (f : W → W * Resp A) : M State (Resp A) :=
  λ st,
    let '(w, r) := f (world st) in
    (mkState w (events st ++ [Called req (respError r)]) (cache st), Ret r).

(** The inner loop of [addPaginatedZones] over one page of zones. *)
Definition addZones (p : OCIProvider) (items : list ZoneSummary)
    (zones : gmap string ZoneSummary) : gmap string ZoneSummary :=
  foldl (λ zones zone,
           if domainFilter p (Name zone) && zoneIDFilter p (Id zone)
           then <[Id zone := zone]> zones else zones)
        zones items.

(** [addPaginatedZones]; [fuel] bounds the number of pages. The Go function
    fills the map it is given; here it returns the filled map. *)
Fixpoint addPaginatedZones (fuel : nat) (p : OCIProvider)
    (zones : gmap string ZoneSummary) (scope : string) (page : option string)
    : M State (Resp (gmap string ZoneSummary)) :=
  match fuel with
  | O => outOfFuel
  | S fuel' =>
      let request := mkListZonesRequest (CompartmentID p) scope page in
      let* resp := invoke (ReqListZones request) (ListZones (client p) request) in
      match resp with
      | err e => ret (err ("listing zones in " +:+ CompartmentID p +:+ ": " +:+ e))
      | ok resp =>
          let zones := addZones p (Items resp) zones in
          match OpcNextPage resp with
          | None => ret (ok zones)
          | Some next => addPaginatedZones fuel' p zones scope (Some next)
          end
      end
  end.

Fixpoint zonesScopes (fuel : nat) (p : OCIProvider) (scopes : list string)
    (zones : gmap string ZoneSummary) : M State (Resp (gmap string ZoneSummary)) :=
  match scopes with
  | [] => ret (ok zones)
  | scope :: scopes' =>
      let* r := addPaginatedZones fuel p zones scope None in
      match r with
      | err e => ret (err e)
      | ok zones => zonesScopes fuel p scopes' zones
      end
  end.

Definition zones (fuel : nat) (p : OCIProvider)
    : M State (Resp (gmap string ZoneSummary)) :=
  let* st := gets (λ st, st) in
  if negb (Expired (clock (world st)) (cache st)) then
    ret (ok (cachedZones (cache st)))
  else
    let scopes :=
      if decide (zoneScope p = "") then GetGetZoneScopeEnumValues
      else [zoneScope p] in
    let* r := zonesScopes fuel p scopes ∅ in
    match r with
    | err e => ret (err e)
    | ok zones =>
        let* _ := modify (λ st, mkState (world st) (events st)
                            (Reset (clock (world st)) zones (cache st))) in
        ret (ok zones)
    end.

(** [newRecordOperation]; [None] is the panic of [targets[0]] on an empty
    slice. [int(ep.RecordTTL)] keeps the value (64-bit [int]). *)
Definition newRecordOperation (ep : Endpoint)
    (opType : RecordOperationOperationEnum) : option RecordOperation :=
  let targets := Targets ep in
  match
    (if decide (RecordType ep = RecordTypeCNAME) then
       match targets with
       | [] => None
       | target0 :: targets' => Some (EnsureTrailingDot target0 :: targets')
       end
     else Some targets)
  with
  | None => None
  | Some targets =>
      let rdata := String.concat " " targets in
      let ttl := if IsConfigured (RecordTTL ep) then RecordTTL ep else ociRecordTTL in
      Some {| Domain := DNSName ep;
              Rdata := rdata;
              Ttl := ttl;
              Rtype := RecordType ep;
              Operation := opType |}
  end.

Fixpoint newFilteredRecordOperationsFrom (p : OCIProvider)
    (endpoints : list Endpoint) (opType : RecordOperationOperationEnum)
    (ops : list RecordOperation) : option (list RecordOperation) :=
  match endpoints with
  | [] => Some ops
  | endpoint :: endpoints' =>
      if domainFilter p (DNSName endpoint) then
        match newRecordOperation endpoint opType with
        | None => None
        | Some op => newFilteredRecordOperationsFrom p endpoints' opType (ops ++ [op])
        end
      else newFilteredRecordOperationsFrom p endpoints' opType ops
  end.

Definition newFilteredRecordOperations (p : OCIProvider)
    (endpoints : list Endpoint) (opType : RecordOperationOperationEnum)
    : option (list RecordOperation) :=
  newFilteredRecordOperationsFrom p endpoints opType [].

(** [operationsByZone]. The last loop deletes the zones without changes
    while ranging over the map; what is left does not depend on the order. *)
Definition operationsByZone (zones : gmap string ZoneSummary)
    (ops : list RecordOperation) : gmap string (list RecordOperation) :=
  let zs := snd <$> rangeOrder 0%nat zones in
  let zoneNameIDMapper :=
    foldl (λ m z, ZoneIDName_Add (Id z) (Name z) m) ZoneIDName_empty zs in
  let changes : gmap string (list RecordOperation) :=
    foldl (λ changes z, <[Id z := []]> changes) ∅ zs in
  let changes :=
    foldl (λ changes op,
             let zoneID := fst (FindZone zoneNameIDMapper (Domain op)) in
             if decide (zoneID ≠ "") then
               <[zoneID := default [] (changes !! zoneID) ++ [op]]> changes
             else changes)
          changes ops in
  filter (λ kv, snd kv ≠ []) changes.

Definition patchRequest (p : OCIProvider) (zone : string * list RecordOperation)
    : PatchZoneRecordsRequest :=
  mkPatchZoneRecordsRequest (CompartmentID p) (fst zone) (snd zone).

(** ApplyChanges, lines 288-296. *)
Fixpoint patchZones (p : OCIProvider)
    (opsByZone : list (string * list RecordOperation)) : M State unit :=
  match opsByZone with
  | [] => ret tt
  | (zoneID, ops) :: rest =>
      let request := patchRequest p (zoneID, ops) in
      let* r := invoke (ReqPatchZoneRecords request)
                       (PatchZoneRecords (client p) request) in
      match r with
      | err e => fail e
      | ok _ => patchZones p rest
      end
  end.

Definition liftPanic {A} (o : option A) : M State A :=
  match o with
  | Some a => ret a
  | None => panic
  end.

Definition ApplyChanges (fuel : nat) (p : OCIProvider) (changes : Changes)
    : M State unit :=
  let* created :=
    liftPanic (newFilteredRecordOperations p (Create changes) RecordOperationOperationAdd) in
  let* updatedNew :=
    liftPanic (newFilteredRecordOperations p (UpdateNew changes) RecordOperationOperationAdd) in
  let* updatedOld :=
    liftPanic (newFilteredRecordOperations p (UpdateOld changes) RecordOperationOperationRemove) in
  let* deleted :=
    liftPanic (newFilteredRecordOperations p (Delete changes) RecordOperationOperationRemove) in
  let ops := created ++ updatedNew ++ updatedOld ++ deleted in
  if decide (length ops = 0%nat) then ret tt
  else
    let* zones := zones fuel p in
    match zones with
    | err e => fail ("fetching zones: " +:+ e)
    | ok zones =>
        let opsByZone := operationsByZone zones ops in
        if dryRun p then ret tt
        else patchZones p (rangeOrder 2%nat opsByZone)
    end.

(** The endpoints of a set of changes, in the order [ApplyChanges] reads
    them. *)
Definition allEndpoints (changes : Changes) : list Endpoint :=
  Create changes ++ UpdateNew changes ++ UpdateOld changes ++ Delete changes.

(** [newRecordOperation] needs a target to normalize when the type is CNAME. *)
Definition cnameHasTarget (ep : Endpoint) : Prop :=
  RecordType ep = RecordTypeCNAME → Targets ep ≠ [].

End Provider.
Arguments OCIProvider W : clear implicits.
Arguments State W : clear implicits.
End oci.

(** ** Stand-ins for the collaborators, and scripted vendors

    Used to run the providers on concrete inputs. *)
Module standin.
Import cloudflare cloudflaresdk exec.

Fixpoint endsWith (suffix s : string) : bool :=
  bool_decide (s = suffix)
  || match s with
     | EmptyString => false
     | String _ s' => endsWith suffix s'
     end.

(** Modelled from the spec: [provider.EnsureTrailingDot] is outside the
    embedded files; the spec calls its result trailing-dot-normalized: the
    name with exactly the dot it needs at its end. *)
Definition ensureTrailingDot (hostname : string) : string :=
  if endsWith "." hostname then hostname else hostname +:+ ".".

Definition zoneMatches (hostname zoneName : string) : bool :=
  bool_decide (hostname = zoneName) || endsWith ("." +:+ zoneName) hostname.

(** Modelled from the spec: the zone-name to zone-id mapping of package
    [provider] is outside the embedded files; a name resolves to the zone
    whose name it is or ends with, the longest one, and to the empty id when
    there is none. *)
Definition findZone (m : list (string * string)) (hostname : string) : string * string :=
  foldl (λ best z,
           if zoneMatches hostname (snd z)
              && (bool_decide (snd best = "")
                  || bool_decide (String.length (snd best) < String.length (snd z))%nat)
           then z else best)
        ("", "") m.

#[export] Instance providerPkg : ProviderPkg := {|
  ZoneIDName := list (string * string);
  ZoneIDName_empty := [];
  ZoneIDName_Add := λ zoneID zoneName m, m ++ [(zoneID, zoneName)];
  FindZone := findZone;
  EnsureTrailingDot := ensureTrailingDot;
  SupportedRecordType := λ t, bool_decide (t ∈ ["A"; "AAAA"; "CNAME"; "SRV"; "TXT"; "NS"])
|}.

(** Modelled from the spec: [endpoint.NewEndpoint] and [TTL.IsConfigured]
    are outside the embedded files; an endpoint is a DNS name, a record
    type, target values and a TTL, and a TTL is configured when it is set to
    a positive number of seconds. *)
#[export] Instance endpointPkg : EndpointPkg := {|
  NewEndpoint := λ dnsName recordType targets, mkEndpoint dnsName targets recordType 0;
  IsConfigured := λ ttl, bool_decide (0 < ttl)
|}.

#[export] Instance pagination : Pagination := {|
  Next := λ ri, mkResultInfo (Page ri + 1) (PerPage ri) (TotalPages ri) (Count ri) (Total ri);
  Done := λ ri, bool_decide (TotalPages ri < Page ri)
|}.

#[export] Instance dnsSDK : oci.DnsSDK := {|
  oci.GetGetZoneScopeEnumValues := ["GLOBAL"; "PRIVATE"]
|}.

#[export] Instance mapIteration : MapIteration := {|
  rangeOrder := λ V site m, map_to_list m;
  rangeOrder_perm := λ V site m, Permutation_refl (map_to_list m)
|}.

(** A scripted Cloudflare account: one zone [example.com], a tunnel whose
    ingress is [ingress], and DNS-record calls that fail for the names in
    [broken]. The world counts the calls made. *)
Definition exampleZone : Zone := mkZone "zone-1" "example.com".

Definition cfClient (ingress : list UnvalidatedIngressRule) (broken : list string)
    : cloudflaretunnel.CloudFlareAPIClient nat :=
  {| cloudflaretunnel.GetTunnelConfiguration := λ account tunnel w,
       (S w, ok (mkTunnelConfigurationResult tunnel
                   (mkTunnelConfiguration ingress None (mkOriginRequestConfig None None)) 7));
     cloudflaretunnel.UpdateTunnelConfiguration := λ account params w,
       (S w, ok (mkTunnelConfigurationResult (par_TunnelID params) (par_Config params) 8));
     cloudflaretunnel.ListZonesContext := λ w, (S w, ok [exampleZone]);
     cloudflaretunnel.ZoneDetails := λ zoneID w, (S w, ok (mkZone zoneID "example.com"));
     cloudflaretunnel.ListDNSRecords := λ zoneID params w,
       (S w, ok ([mkDNSRecord "rec-old" "old.example.com" "CNAME" "tunnel-1.cfargotunnel.com" zoneID;
                  mkDNSRecord "rec-app" "app.example.com" "CNAME" "tunnel-1.cfargotunnel.com" zoneID],
                 mkResultInfo (Page params) (PerPage params) 1 2 2));
     cloudflaretunnel.CreateDNSRecord := λ zoneID params w,
       (S w, if bool_decide (cp_Name params ∈ broken) then err "quota exceeded"
             else ok (mkDNSRecord "rec-new" (cp_Name params) (cp_Type params)
                        (cp_Content params) zoneID));
     cloudflaretunnel.DeleteDNSRecord := λ zoneID recordID w,
       (S w, if bool_decide (recordID ∈ broken) then err "no such record" else ok tt);
     cloudflaretunnel.UpdateDNSRecord := λ zoneID params w,
       (S w, if bool_decide (up_Name params ∈ broken) then err "conflict"
             else ok (mkDNSRecord (up_ID params) (up_Name params) (up_Type params)
                        (up_Content params) zoneID)) |}.

Definition cfProvider (ingress : list UnvalidatedIngressRule) (broken : list string)
    (dryRun : bool) : cloudflaretunnel.CloudFlareTunnelProvider nat :=
  {| cloudflaretunnel.Client := cfClient ingress broken;
     cloudflaretunnel.domainFilter := λ _, true;
     cloudflaretunnel.DryRun := dryRun;
     cloudflaretunnel.accountId := "account-1";
     cloudflaretunnel.tunnelId := "tunnel-1";
     cloudflaretunnel.zoneIDFilter := [];
     cloudflaretunnel.DNSRecordsPerPage := 100 |}.

Definition cfStart : cloudflaretunnel.State nat := cloudflaretunnel.mkState 0%nat [] [].


Definition ruleApp : UnvalidatedIngressRule :=
  mkRule "app.example.com" "" "https://10.0.0.1:443" None.
Definition ruleOld : UnvalidatedIngressRule :=
  mkRule "old.example.com" "" "https://10.0.0.2:443" None.
Definition ruleCatchAll : UnvalidatedIngressRule :=
  mkRule "" "" "http_status:404" None.

(** A scripted OCI compartment with two zones; [PatchZoneRecords] fails for
    the zone ids in [broken]. *)
Definition ociClient (broken : list string) : oci.ociDNSClient nat :=
  {| oci.ListZones := λ request w,
       (S w, ok (oci.mkListZonesResponse
                   (if bool_decide (oci.lz_Scope request = "GLOBAL")
                    then [oci.mkZoneSummary "ocid-com" "example.com";
                          oci.mkZoneSummary "ocid-org" "example.org"]
                    else [])
                   None));
     oci.PatchZoneRecords := λ request w,
       (S w, if bool_decide (oci.pz_ZoneNameOrId request ∈ broken)
             then err "patch rejected" else ok tt) |}.

Definition ociProvider (broken : list string) (dryRun : bool) : oci.OCIProvider nat :=
  {| oci.client := ociClient broken;
     oci.CompartmentID := "compartment-1";
     oci.domainFilter := λ _, true;
     oci.zoneIDFilter := λ _, true;
     oci.zoneScope := "";
     oci.dryRun := dryRun |}.

Definition ociClock (w : nat) : Z := Z.of_nat w.

Definition ociStart : oci.State nat := oci.mkState 0%nat [] (oci.mkZoneCache 0 None).

(** Endpoints for the worked examples. *)
Definition epNew : Endpoint := mkEndpoint "new.example.com" ["10.0.0.9"] "A" 0.
Definition epApp : Endpoint := mkEndpoint "app.example.com" ["10.0.0.3"] "A" 0.
Definition epOld : Endpoint := mkEndpoint "old.example.com" ["10.0.0.2"] "A" 0.
Definition epNoTarget : Endpoint := mkEndpoint "bare.example.com" [] "A" 0.
Definition epMX : Endpoint := mkEndpoint "example.com" ["10 mail.example.com"] "MX" 0.
Definition epCname : Endpoint :=
  mkEndpoint "www.example.org" ["a.example.org"; "b.example.org"] "CNAME" 600.
Definition epCom : Endpoint := mkEndpoint "www.example.com" ["192.0.2.1"; "192.0.2.2"] "A" 0.

Definition fetched (ingress : list UnvalidatedIngressRule) : TunnelConfigurationResult :=
  mkTunnelConfigurationResult "tunnel-1"
    (mkTunnelConfiguration ingress None (mkOriginRequestConfig None None)) 7.



(** A provider whose domain filter matches no name. *)
Definition ociProviderExcluding : oci.OCIProvider nat :=
  {| oci.client := ociClient [];
     oci.CompartmentID := "compartment-1";
     oci.domainFilter := λ _, false;
     oci.zoneIDFilter := λ _, true;
     oci.zoneScope := "";
     oci.dryRun := false |}.

End standin.

(** ** Notions used to state further properties of the tunnel provider *)
Module tunnelfacts.
Import cloudflare cloudflaresdk util exec cloudflaretunnel.

Section Provider.
Context {W : Type}.

(** A DNS record that points a name at the tunnel: a proxied CNAME with the
    automatic TTL, in a zone that is known. *)
Definition toTunnel (p : CloudFlareTunnelProvider W) (recordType content : string)
    (ttl : Z) (proxied : option bool) (zoneID : string) : Prop :=
  recordType = RecordTypeCNAME ∧ content = tunnelId p +:+ ".cfargotunnel.com"
  ∧ ttl = 1 ∧ proxied = Some true ∧ zoneID ≠ "".

(** The names of the A endpoints of a list. *)
Definition namesOfA (endpoints : list Endpoint) : list string :=
  DNSName <$> filter isA endpoints.

Definition goodCreate (p : CloudFlareTunnelProvider W) (endpoints : list Endpoint)
    (cp : CreateDNSRecordParams) : Prop :=
  toTunnel p (cp_Type cp) (cp_Content cp) (cp_TTL cp) (cp_Proxied cp) (cp_ZoneID cp)
  ∧ cp_Name cp ∈ namesOfA endpoints.

Definition goodUpdate (p : CloudFlareTunnelProvider W) (endpoints : list Endpoint)
    (up : dnsUpdateParam) : Prop :=
  toTunnel p (up_Type (cfup up)) (up_Content (cfup up)) (up_TTL (cfup up))
    (up_Proxied (cfup up)) (upd_ZoneID up)
  ∧ up_Name (cfup up) ∈ namesOfA endpoints.

(** [NewCloudFlareTunnelProvider]; [env] is the process environment
    ([os.LookupEnv] finds a variable that is set, also to the empty
    string). The struct literal sets neither [DNSRecordsPerPage] nor
    anything from [dnsRecordsPerPage]. The new zone mapping is returned
    beside the provider. *)
Definition NewCloudFlareTunnelProvider `{ProviderPkg} (env : gmap string string)
    (client : CloudFlareAPIClient W) (domainFilter : string → bool)
    (zoneIDFilter : list string) (dryRun : bool) (dnsRecordsPerPage : Z)
    : Resp (CloudFlareTunnelProvider W * ZoneIDName) :=
  match env !! "CF_ACCOUNT_ID" with
  | None => err "failed to get cloudflare account id: please set env, CF_ACCOUNT_ID"
  | Some accountId =>
      match env !! "CF_TUNNEL_ID" with
      | None => err "failed to get cloudflare tunnel id: please set env, CF_TUNNEL_ID"
      | Some tunnelId =>
          ok ({| Client := client;
                 cloudflaretunnel.domainFilter := domainFilter;
                 DryRun := dryRun;
                 accountId := accountId;
                 tunnelId := tunnelId;
                 cloudflaretunnel.zoneIDFilter := zoneIDFilter;
                 DNSRecordsPerPage := 0 |},
              ZoneIDName_empty)
      end
  end.

(** A call to [ListDNSRecords] for a zone, and one that went well. *)
Definition listsZone (zoneID : string) (ev : Event) : Prop :=
  ∃ params o, ev = Called (ReqListDNSRecords zoneID params) o.

Definition succeeded (ev : Event) : Prop :=
  match ev with
  | Called _ None => True
  | _ => False
  end.

End Provider.
End tunnelfacts.

(** ** Notions used to state further properties of the OCI provider *)
Module ocifacts.
Import exec oci.

Section Provider.
Context {W : Type} `{ProviderPkg} `{EndpointPkg}.

(** The operations [ApplyChanges] builds from the four lists of a set of
    changes, in its order; [None] when building one of them panics. *)
Definition changeOperations (p : OCIProvider W) (changes : Changes)
    : option (list RecordOperation) :=
  created ← newFilteredRecordOperations p (Create changes) RecordOperationOperationAdd;
  updatedNew ← newFilteredRecordOperations p (UpdateNew changes) RecordOperationOperationAdd;
  updatedOld ← newFilteredRecordOperations p (UpdateOld changes) RecordOperationOperationRemove;
  deleted ← newFilteredRecordOperations p (Delete changes) RecordOperationOperationRemove;
  Some (created ++ updatedNew ++ updatedOld ++ deleted).

(** A CNAME endpoint that passes the domain filter and has no target. *)
Definition bareCNAME (p : OCIProvider W) (ep : Endpoint) : Prop :=
  domainFilter p (DNSName ep) = true
  ∧ RecordType ep = RecordTypeCNAME ∧ Targets ep = [].

(** A zone stored under its own id that passes both filters. *)
Definition admitted (p : OCIProvider W) (zones : gmap string ZoneSummary) : Prop :=
  ∀ id zone, zones !! id = Some zone →
    Id zone = id
    ∧ domainFilter p (Name zone) = true ∧ zoneIDFilter p (Id zone) = true.

(** A call that went well, and a zone listing of the provider's
    compartment. *)
Definition wentWell (ev : Event) : Prop :=
  match ev with
  | Called _ None => True
  | Called _ (Some _) => False
  end.

Definition listsCompartment (p : OCIProvider W) (ev : Event) : Prop :=
  ∃ scope page o, ev = Called (ReqListZones (mkListZonesRequest (CompartmentID p) scope page)) o.

End Provider.
End ocifacts.

(** ** More scripted vendors *)
Module scripted.
Import exec standin.

(** An OCI compartment whose zone listing is refused. *)
Definition ociRefusingClient : oci.ociDNSClient nat :=
  {| oci.ListZones := λ request w, (S w, err "not authorized");
     oci.PatchZoneRecords := λ request w, (S w, ok tt) |}.

Definition ociRefusedProvider : oci.OCIProvider nat :=
  {| oci.client := ociRefusingClient;
     oci.CompartmentID := "compartment-1";
     oci.domainFilter := λ _, true;
     oci.zoneIDFilter := λ _, true;
     oci.zoneScope := "GLOBAL";
     oci.dryRun := false |}.

(** A state whose cache was filled at time 0 for 100 time units. *)
Definition ociCached : oci.State nat :=
  oci.mkState 5%nat []
    (oci.mkZoneCache 100
       (Some (0, {[ "ocid-com" := oci.mkZoneSummary "ocid-com" "example.com" ]}))).

Definition epBareCname : Endpoint := mkEndpoint "alias.example.com" [] "CNAME" 0.

Definition someRecords : list cloudflaresdk.DNSRecord :=
  [cloudflaresdk.mkDNSRecord "rec-1" "app.example.com" "A" "192.0.2.1" "zone-1";
   cloudflaresdk.mkDNSRecord "rec-2" "app.example.com" "CNAME" "t.cfargotunnel.com" "zone-1";
   cloudflaresdk.mkDNSRecord "rec-3" "app.example.com" "CNAME" "u.cfargotunnel.com" "zone-1"].

End scripted.
(** * Properties *)

Section OrderedMapFacts.
Import cloudflare util.
Implicit Types (n : OrderedMap) (s r : UnvalidatedIngressRule) (h k : string).

Lemma filter_all {A} (P : A → Prop) `{!∀ x, Decision (P x)} (l : list A) :
  Forall P l → filter P l = l.
Proof.
  induction 1 as [|x l Hx _ IH]; [done|].
  by rewrite filter_cons_True, IH.
Qed.

Lemma filter_none {A} (P : A → Prop) `{!∀ x, Decision (P x)} (l : list A) :
  Forall (λ x, ¬ P x) l → filter P l = [].
Proof.
  induction 1 as [|x l Hx _ IH]; [done|].
  by rewrite filter_cons_False, IH.
Qed.

Lemma filter_ne_notin h (ks : list string) :
  h ∉ ks → filter (λ k, k ≠ h) ks = ks.
Proof.
  induction ks as [|v ks IH]; [done|].
  intros [Hne Hn]%not_elem_of_cons.
  rewrite filter_cons_True by done. by rewrite IH.
Qed.

Lemma removeKey_filter h ks :
  NoDup ks → removeKey h ks = filter (λ k, k ≠ h) ks.
Proof.
  induction 1 as [|v ks Hv Hnd IH]; simpl; [done|].
  destruct (decide (v = h)) as [->|Hne].
  - rewrite filter_cons_False by naive_solver.
    by rewrite filter_ne_notin.
  - rewrite filter_cons_True by done. by rewrite IH.
Qed.

Lemma wf_New cap : wf (NewOrderedMap cap).
Proof.
  split; simpl.
  - constructor.
  - intros k. rewrite lookup_empty. split; [by intros ?%elem_of_nil|by intros [? ?]].
  - intros k v. by rewrite lookup_empty.
Qed.

Lemma keys_Add s n :
  wf n → keys (Add s n) = filter (λ k, k ≠ Hostname s) (keys n) ++ [Hostname s].
Proof.
  intros [Hnd Hdom Hhost]. unfold Add.
  destruct (data n !! Hostname s) as [v|] eqn:E; simpl.
  - by rewrite removeKey_filter.
  - rewrite filter_ne_notin; [done|].
    rewrite Hdom, E. by intros [? ?].
Qed.

Lemma data_Add s n : data (Add s n) = <[Hostname s := s]> (data n).
Proof. unfold Add. by destruct (data n !! Hostname s). Qed.

Lemma wf_Add s n : wf n → wf (Add s n).
Proof.
  intros Hwf. pose proof Hwf as [Hnd Hdom Hhost].
  split; rewrite ?keys_Add, ?data_Add by done.
  - apply NoDup_app. split_and!.
    + by apply NoDup_filter.
    + intros x [Hx _]%list_elem_of_filter ->%list_elem_of_singleton. done.
    + apply NoDup_singleton.
  - intros k. rewrite elem_of_app, list_elem_of_filter, list_elem_of_singleton.
    rewrite lookup_insert. case_decide as Hk; subst.
    + split; [eauto|auto].
    + rewrite Hdom. naive_solver.
  - intros k v. rewrite lookup_insert. case_decide; [naive_solver|eauto].
Qed.

Lemma wf_Update s n : wf n → wf (Update s n).
Proof.
  intros [Hnd Hdom Hhost]. unfold Update.
  destruct (data n !! Hostname s) as [v0|] eqn:E; split; simpl.
  - done.
  - intros k. rewrite lookup_insert. case_decide as Hk; subst.
    + rewrite Hdom, E. split; eauto.
    + apply Hdom.
  - intros k v. rewrite lookup_insert. case_decide; [naive_solver|eauto].
  - apply NoDup_app. split_and!; [done| |apply NoDup_singleton].
    intros x Hx ->%list_elem_of_singleton.
    apply Hdom in Hx. rewrite E in Hx. by destruct Hx.
  - intros k. rewrite elem_of_app, list_elem_of_singleton, lookup_insert.
    case_decide as Hk; subst; [split; eauto|]. rewrite Hdom. naive_solver.
  - intros k v. rewrite lookup_insert. case_decide; [naive_solver|eauto].
Qed.

Lemma wf_Remove s n : wf n → wf (Remove s n).
Proof.
  intros Hwf. pose proof Hwf as [Hnd Hdom Hhost]. unfold Remove.
  destruct (data n !! Hostname s) as [v0|] eqn:E; [|done].
  split; simpl; rewrite ?removeKey_filter by done.
  - by apply NoDup_filter.
  - intros k. rewrite list_elem_of_filter, lookup_delete.
    case_decide as Hk; subst.
    + split; [naive_solver|by intros [? ?]].
    + rewrite Hdom. naive_solver.
  - intros k v. rewrite lookup_delete. case_decide; [done|eauto].
Qed.

Lemma addAll_snoc rs r n : addAll (rs ++ [r]) n = Add r (addAll rs n).
Proof. unfold addAll. by rewrite foldl_app. Qed.

Lemma wf_addAll rs n : wf n → wf (addAll rs n).
Proof.
  intros Hwf. induction rs as [|r rs IH] using rev_ind; [done|].
  rewrite addAll_snoc. by apply wf_Add.
Qed.

Lemma Get_lookup n k :
  wf n → k ∈ keys n → Hostname (default zeroRule (data n !! k)) = k.
Proof.
  intros [_ Hdom Hhost] [v Hv]%Hdom. rewrite Hv. simpl. eauto.
Qed.

Lemma Get_hostnames n : wf n → Hostname <$> Get n = keys n.
Proof.
  intros Hwf. unfold Get. rewrite <- list_fmap_compose.
  rewrite <- (list_fmap_id (keys n)) at 2.
  apply list_fmap_ext. intros i k Hk. simpl.
  apply Get_lookup; [done|]. by eapply list_elem_of_lookup_2.
Qed.

(** Under the invariant, [Add] keeps the other values in their order and puts
    the added value last. *)
Lemma Get_Add s n :
  wf n →
  Get (Add s n) = filter (λ r, Hostname r ≠ Hostname s) (Get n) ++ [s].
Proof.
  intros Hwf. unfold Get at 1. rewrite keys_Add, data_Add by done.
  rewrite fmap_app. simpl. rewrite lookup_insert_eq. simpl. f_equal.
  unfold Get. pose proof (λ k, Get_lookup n k Hwf) as Hk.
  induction (keys n) as [|k ks IH]; [done|].
  assert (Hostname (default zeroRule (data n !! k)) = k) as Hkk
    by (apply Hk; left).
  assert (∀ k', k' ∈ ks → Hostname (default zeroRule (data n !! k')) = k')
    as Hks by (intros; apply Hk; by right).
  rewrite fmap_cons. destruct (decide (k = Hostname s)) as [->|Hne].
  - rewrite filter_cons_False by naive_solver.
    rewrite (filter_cons_False _ (default zeroRule _)) by (rewrite Hkk; naive_solver).
    by apply IH.
  - rewrite filter_cons_True by done.
    rewrite (filter_cons_True _ (default zeroRule _)) by (by rewrite Hkk).
    rewrite fmap_cons, lookup_insert_ne by done. f_equal. by apply IH.
Qed.

Lemma lastAdds_snoc rs r :
  lastAdds (rs ++ [r]) = filter (λ x, Hostname x ≠ Hostname r) (lastAdds rs) ++ [r].
Proof.
  induction rs as [|x rs IH]; simpl.
  - done.
  - rewrite fmap_app. simpl.
    destruct (decide (Hostname x = Hostname r)) as [E|Hne].
    + rewrite decide_True by (rewrite elem_of_app, list_elem_of_singleton; auto).
      rewrite IH. case_decide.
      * done.
      * by rewrite filter_cons_False by naive_solver.
    + destruct (decide (Hostname x ∈ Hostname <$> rs)) as [Hin|Hnin].
      * rewrite decide_True by (rewrite elem_of_app; auto). done.
      * rewrite decide_False
          by (rewrite elem_of_app, list_elem_of_singleton; naive_solver).
        rewrite filter_cons_True by done. simpl. by rewrite IH.
Qed.

Lemma lastAdds_hostnames rs :
  Hostname <$> lastAdds rs = remove_dups (Hostname <$> rs).
Proof.
  induction rs as [|r rs IH]; [done|].
  cbn [lastAdds]. rewrite fmap_cons. cbn [remove_dups]. unfold decide_rel.
  destruct (decide (Hostname r ∈ Hostname <$> rs));
    destruct (list_elem_of_dec _ _); try done.
  by rewrite fmap_cons, IH.
Qed.

Lemma Get_addAll cap rs : Get (addAll rs (NewOrderedMap cap)) = lastAdds rs.
Proof.
  induction rs as [|r rs IH] using rev_ind; [done|].
  rewrite addAll_snoc, lastAdds_snoc, Get_Add, IH; [done|].
  apply wf_addAll, wf_New.
Qed.

(** C1: after any run of [Add] calls on a new map, [Get] lists every distinct
    hostname exactly once, each with the value of its most recent [Add], in
    the order of those most recent [Add]s. One call appends an absent key,
    and takes a present key out of its place and appends it again, storing
    the new value in both cases. *)
Theorem C1_Add_sequence_order cap (rs : list UnvalidatedIngressRule) :
  let n := addAll rs (NewOrderedMap cap) in
  Get n = lastAdds rs
  ∧ Hostname <$> Get n = remove_dups (Hostname <$> rs)
  ∧ NoDup (Hostname <$> Get n)
  ∧ (∀ h, h ∈ Hostname <$> Get n ↔ h ∈ Hostname <$> rs)
  ∧ (∀ r, Get (addAll (rs ++ [r]) (NewOrderedMap cap))
          = filter (λ x, Hostname x ≠ Hostname r) (Get n) ++ [r])
  ∧ (∀ r, data n !! Hostname r = None →
          keys (Add r n) = keys n ++ [Hostname r])
  ∧ (∀ r, is_Some (data n !! Hostname r) →
          ∃ before after,
            keys n = before ++ Hostname r :: after
            ∧ keys (Add r n) = before ++ after ++ [Hostname r])
  ∧ (∀ r, data (Add r n) !! Hostname r = Some r).
Proof.
  intros n. assert (wf n) as Hwf by apply wf_addAll, wf_New.
  assert (Get n = lastAdds rs) as HG by apply Get_addAll.
  split_and!.
  - done.
  - by rewrite HG, lastAdds_hostnames.
  - rewrite HG, lastAdds_hostnames. apply NoDup_remove_dups.
  - intros h. by rewrite HG, lastAdds_hostnames, elem_of_remove_dups.
  - intros r. by rewrite addAll_snoc, Get_Add.
  - intros r E. unfold Add. by rewrite E.
  - intros r Hs. pose proof Hwf as [Hnd Hdom _].
    apply Hdom, list_elem_of_split in Hs as (before & after & Hk).
    exists before, after. split; [done|].
    rewrite keys_Add by done. rewrite Hk in Hnd |- *.
    apply NoDup_app in Hnd as (_ & Hba & [Hna _]%NoDup_cons).
    rewrite filter_app, filter_cons_False by naive_solver.
    rewrite !filter_ne_notin; [by rewrite <- app_assoc|done|].
    intros Hin. apply (Hba _ Hin). left.
  - intros r. by rewrite data_Add, lookup_insert_eq.
Qed.

Lemma wf_calls cs n : wf n → wf (calls cs n).
Proof.
  intros Hwf. induction cs as [|c cs IH] using rev_ind; [done|].
  unfold calls. rewrite foldl_app. simpl. fold (calls cs n).
  destruct c; simpl; auto using wf_Add, wf_Update, wf_Remove.
Qed.

Lemma Get_Update_present s n :
  wf n → is_Some (data n !! Hostname s) →
  Get (Update s n)
  = (λ r, if decide (Hostname r = Hostname s) then s else r) <$> Get n.
Proof.
  intros Hwf [v E]. unfold Update. rewrite E. unfold Get. simpl.
  rewrite <- list_fmap_compose. apply list_fmap_ext. intros i k Hk. simpl.
  assert (Hostname (default zeroRule (data n !! k)) = k) as Hkk.
  { apply Get_lookup; [done|]. by eapply list_elem_of_lookup_2. }
  rewrite Hkk, lookup_insert.
  destruct (decide (Hostname s = k)) as [->|Hne].
  - by rewrite decide_True.
  - by rewrite decide_False.
Qed.

(** C4: on any map the interface can produce, [Update] of an absent key is
    [Add] of that key, which appends it at the end; [Update] of a present key
    stores the new value and leaves the key order, hence the enumeration
    order, as it was. *)
Theorem C4_Update_absent_is_Add_present_keeps_order cap cs s :
  let n := calls cs (NewOrderedMap cap) in
  (data n !! Hostname s = None →
     Update s n = Add s n
     ∧ keys (Update s n) = keys n ++ [Hostname s]
     ∧ Get (Update s n) = Get n ++ [s])
  ∧ (is_Some (data n !! Hostname s) →
     keys (Update s n) = keys n
     ∧ data (Update s n) = <[Hostname s := s]> (data n)
     ∧ Hostname <$> Get (Update s n) = Hostname <$> Get n
     ∧ Get (Update s n)
       = (λ r, if decide (Hostname r = Hostname s) then s else r) <$> Get n).
Proof.
  intros n. assert (wf n) as Hwf by apply wf_calls, wf_New.
  split.
  - intros E.
    assert (Update s n = Add s n) as HUA by (unfold Update, Add; by rewrite E).
    split_and!; [done|unfold Update; by rewrite E|].
    rewrite HUA, Get_Add by done. f_equal.
    apply filter_all, Forall_forall. intros r Hr Heq.
    assert (Hostname s ∈ keys n) as Hin.
    { rewrite <- Get_hostnames by done. rewrite <- Heq.
      by apply list_elem_of_fmap_2. }
    apply (wf_dom _ Hwf) in Hin. rewrite E in Hin. by destruct Hin.
  - intros Hs. pose proof (Get_Update_present s n Hwf Hs) as HG.
    destruct Hs as [v E].
    split_and!; [unfold Update; by rewrite E..| |done].
    rewrite !Get_hostnames; [|done|by apply wf_Update].
    unfold Update. by rewrite E.
Qed.

End OrderedMapFacts.

Section ExecFacts.
Import exec.
Context {S E : Type} (events : S → list E).
Implicit Type Q : E → Prop.

Lemma emits_ret {A} Q (a : A) : emits events Q (ret a).
Proof. intros st. exists []. by rewrite app_nil_r. Qed.

Lemma emits_fail {A} Q e : emits events Q (fail (A:=A) e).
Proof. intros st. exists []. by rewrite app_nil_r. Qed.

Lemma emits_panic {A} Q : emits events Q (panic (A:=A)).
Proof. intros st. exists []. by rewrite app_nil_r. Qed.

Lemma emits_outOfFuel {A} Q : emits events Q (outOfFuel (A:=A)).
Proof. intros st. exists []. by rewrite app_nil_r. Qed.

Lemma emits_gets {A} Q (f : S → A) : emits events Q (gets f).
Proof. intros st. exists []. by rewrite app_nil_r. Qed.

Lemma emits_bind {A B} Q (m : M S A) (k : A → M S B) :
  emits events Q m → (∀ a, emits events Q (k a)) → emits events Q (bind m k).
Proof.
  intros Hm Hk st. unfold bind.
  destruct (Hm st) as (new1 & E1 & F1).
  destruct (m st) as [st1 [a|e| |]]; simpl in *; eauto.
  destruct (Hk a st1) as (new2 & E2 & F2).
  exists (new1 ++ new2). rewrite E2, E1, app_assoc. split; [done|].
  by apply Forall_app.
Qed.

Lemma emits_weaken {A} Q Q' (m : M S A) :
  (∀ ev, Q ev → Q' ev) → emits events Q m → emits events Q' m.
Proof.
  intros HQ Hm st. destruct (Hm st) as (new & ? & ?).
  exists new. split; [done|]. by eapply Forall_impl.
Qed.

Lemma emits_modify Q (f : S → S) :
  (∀ st, events (f st) = events st) → emits events Q (modify f).
Proof.
  intros Hf st. exists []. simpl. by rewrite Hf, app_nil_r.
Qed.

Lemma returns_ret {A} (P : A → Prop) (a : A) : P a → returns (S:=S) P (ret a).
Proof. intros HP st st' a' [= _ <-]. done. Qed.

Lemma returns_fail {A} (P : A → Prop) e : returns (S:=S) P (fail e).
Proof. by intros st st' a'. Qed.

Lemma returns_panic {A} (P : A → Prop) : returns (S:=S) P panic.
Proof. by intros st st' a'. Qed.

Lemma returns_outOfFuel {A} (P : A → Prop) : returns (S:=S) P outOfFuel.
Proof. by intros st st' a'. Qed.

Lemma returns_bind {A B} (P : B → Prop) (m : M S A) (k : A → M S B) :
  (∀ a, returns P (k a)) → returns P (bind m k).
Proof.
  intros Hk st st' b. unfold bind.
  destruct (m st) as [st1 [a|e| |]]; try done. apply Hk.
Qed.

Lemma returns_bind_post {A B} (R : A → Prop) (P : B → Prop) (m : M S A) (k : A → M S B) :
  returns R m → (∀ a, R a → returns P (k a)) → returns P (bind m k).
Proof.
  intros Hm Hk st st' b. unfold bind.
  destruct (m st) as [st1 [a|e| |]] eqn:Hrun; try done.
  apply Hk. by eapply Hm.
Qed.

Lemma bind_Ret {A B} (m : M S A) (k : A → M S B) st st1 a :
  m st = (st1, Ret a) → bind m k st = k a st1.
Proof. intros Hm. unfold bind. by rewrite Hm. Qed.


Lemma bind_Panic {A B} (m : M S A) (k : A → M S B) st st1 :
  m st = (st1, Panic) → bind m k st = (st1, Panic).
Proof. intros Hm. unfold bind. by rewrite Hm. Qed.

Lemma noPanic_ret {A} (a : A) : noPanic (S:=S) (ret a).
Proof. by intros st. Qed.

Lemma noPanic_fail {A} e : noPanic (S:=S) (fail (A:=A) e).
Proof. by intros st. Qed.

Lemma noPanic_outOfFuel {A} : noPanic (S:=S) (outOfFuel (A:=A)).
Proof. by intros st. Qed.

Lemma noPanic_gets {A} (f : S → A) : noPanic (gets f).
Proof. by intros st. Qed.

Lemma noPanic_modify (f : S → S) : noPanic (modify f).
Proof. by intros st. Qed.

Lemma noPanic_bind {A B} (m : M S A) (k : A → M S B) :
  noPanic m → (∀ a, noPanic (k a)) → noPanic (bind m k).
Proof.
  intros Hm Hk st. unfold bind. specialize (Hm st).
  destruct (m st) as [st1 [a|e| |]]; simpl in *; try done. apply Hk.
Qed.

End ExecFacts.

Section CloudflareFacts.
Import cloudflare cloudflaresdk util exec cloudflaretunnel.
Context {W : Type} `{ProviderPkg} `{EndpointPkg} `{Pagination}.
Implicit Types (p : CloudFlareTunnelProvider W) (st : State W).
Local Open Scope exec_scope.

Local Abbreviation emitsCF := (emits (events (W:=W))).

Lemma emits_invoke {A} (Q : Event → Prop) req (f : W → W * Resp A) :
  (∀ o, Q (Called req o)) → emitsCF Q (invoke req f).
Proof.
  intros HQ st. unfold invoke. destruct (f (world st)) as [w r]. simpl.
  eexists. split; [done|]. by repeat constructor.
Qed.

Lemma emits_print (Q : Event → Prop) s : Q (Stdout s) → emitsCF Q (print s).
Proof.
  intros HQ st. simpl. eexists. split; [done|]. by repeat constructor.
Qed.

Lemma invoke_run {A} req (f : W → W * Resp A) st w r :
  f (world st) = (w, r) →
  invoke req f st
  = (mkState w (events st ++ [Called req (respError r)]) (zoneNameIDMapper st), Ret r).
Proof. intros Hf. unfold invoke. by rewrite Hf. Qed.

Lemma noPanic_invoke {A} req (f : W → W * Resp A) : noPanic (invoke req f).
Proof. intros st. unfold invoke. by destruct (f (world st)). Qed.

Lemma noPanic_print s : noPanic (print (W:=W) s).
Proof. by intros st. Qed.


Ltac emits_step :=
  first
    [ apply emits_ret | apply emits_fail | apply emits_panic
    | apply emits_outOfFuel | apply emits_gets
    | apply emits_print; done | apply emits_invoke; done
    | apply emits_bind; [|intros ?] ].

Ltac noPanic_step :=
  first
    [ apply noPanic_ret | apply noPanic_fail | apply noPanic_outOfFuel
    | apply noPanic_gets | apply noPanic_modify | apply noPanic_print
    | apply noPanic_invoke | apply noPanic_bind; [|intros ?] ].

Lemma zoneDetailsLoop_emits p zoneIDs result :
  emitsCF quiet (zoneDetailsLoop p zoneIDs result).
Proof.
  revert result. induction zoneIDs as [|zoneID zoneIDs IH]; intros result; simpl.
  - emits_step.
  - repeat emits_step. destruct a; [apply IH|emits_step].
Qed.

Lemma Zones_emits p : emitsCF quiet (Zones p).
Proof.
  unfold Zones. destruct (zoneIDFilterConfigured _).
  - apply zoneDetailsLoop_emits.
  - repeat emits_step. destruct a; emits_step.
Qed.

Lemma updateZoneIdMapper_emits p : emitsCF quiet (updateZoneIdMapper p).
Proof.
  unfold updateZoneIdMapper. apply emits_bind; [apply Zones_emits|].
  intros [zones [e|]]; [emits_step|].
  apply emits_bind; [by apply emits_modify|]. intros _. emits_step.
Qed.

Lemma listDNSRecordsPages_emits fuel p zoneID records params :
  emitsCF quiet (listDNSRecordsPages fuel p zoneID records params).
Proof.
  revert records params.
  induction fuel as [|fuel IH]; intros records params; simpl; [emits_step|].
  repeat emits_step. destruct a as [[pageRecords resultInfo]|e]; [|emits_step].
  destruct (Done _); [emits_step|apply IH].
Qed.

Lemma createLoop_emits p create m ps : emitsCF quiet (createLoop p create m ps).
Proof.
  revert m ps. induction create as [|ep create IH]; intros m ps; simpl.
  - emits_step.
  - case_decide; [apply IH|].
    destruct (Targets ep); [emits_step|].
    repeat emits_step. case_decide; [|apply IH].
    repeat emits_step. apply IH.
Qed.

Lemma updateLoop_emits fuel p updateNew m ps :
  emitsCF quiet (updateLoop fuel p updateNew m ps).
Proof.
  revert m ps. induction updateNew as [|ep updateNew IH]; intros m ps; simpl.
  - emits_step.
  - case_decide; [apply IH|].
    destruct (Targets ep); [emits_step|].
    repeat emits_step. case_decide.
    + repeat emits_step. apply IH.
    + apply emits_bind; [apply listDNSRecordsPages_emits|].
      intros [records|e]; [apply IH|emits_step].
Qed.

Lemma deleteLoop_emits fuel p delete m ps :
  emitsCF quiet (deleteLoop fuel p delete m ps).
Proof.
  revert m ps. induction delete as [|ep delete IH]; intros m ps; simpl.
  - emits_step.
  - case_decide; [apply IH|].
    repeat emits_step. case_decide.
    + repeat emits_step. apply IH.
    + apply emits_bind; [apply listDNSRecordsPages_emits|].
      intros [records|e]; [apply IH|emits_step].
Qed.

Lemma prepare_emits fuel p changes : emitsCF quiet (prepare fuel p changes).
Proof.
  unfold prepare. apply emits_bind; [apply updateZoneIdMapper_emits|].
  intros [e|]; [emits_step|]. repeat emits_step.
  destruct a as [oldConfigResult|e]; [|emits_step].
  destruct (loadIngress _ _ _) as [m catchAll].
  apply emits_bind; [apply createLoop_emits|]. intros [m1 cs].
  apply emits_bind; [apply updateLoop_emits|]. intros [m2 us].
  apply emits_bind; [apply deleteLoop_emits|]. intros [m3 ds].
  emits_step.
Qed.



(** C3 (as amended): [Records] returns one endpoint per ingress rule of the
    fetched configuration, in order, each built by [NewEndpoint] from the
    rule's hostname, the type A and the rule's service as only target. No
    rule is left out: the rule with the empty hostname yields an endpoint
    too. *)
Theorem C3_Records_one_endpoint_per_rule p st w res :
  GetTunnelConfiguration (Client p) (accountId p) (tunnelId p) (world st) = (w, ok res) →
  let ingress := Ingress (res_Config res) in
  ∃ st' endpoints,
    Records p st = (st', Ret endpoints)
    ∧ events st' = events st
        ++ [Called (ReqGetTunnelConfiguration (accountId p) (tunnelId p)) None]
    ∧ endpoints
      = (λ config, NewEndpoint (Hostname config) RecordTypeA [Service config]) <$> ingress
    ∧ length endpoints = length ingress
    ∧ (∀ i config, ingress !! i = Some config →
         endpoints !! i = Some (NewEndpoint (Hostname config) RecordTypeA [Service config]))
    ∧ (∀ config, config ∈ ingress → Hostname config = "" →
         NewEndpoint "" RecordTypeA [Service config] ∈ endpoints).
Proof.
  intros Hget ingress. subst ingress.
  unfold Records, bind, invoke. rewrite Hget. simpl.
  eexists _, _. split_and!; try done.
  - by rewrite length_fmap.
  - intros i config Hi. by rewrite list_lookup_fmap, Hi.
  - intros config Hin <-.
    by apply (list_elem_of_fmap_2
                (λ config, NewEndpoint (Hostname config) RecordTypeA [Service config])).
Qed.


(** *** Panics *)

Lemma zoneDetailsLoop_noPanic p zoneIDs result :
  noPanic (zoneDetailsLoop p zoneIDs result).
Proof.
  revert result. induction zoneIDs as [|zoneID zoneIDs IH]; intros result; simpl.
  - noPanic_step.
  - repeat noPanic_step. destruct a; [apply IH|noPanic_step].
Qed.

Lemma updateZoneIdMapper_noPanic p : noPanic (updateZoneIdMapper p).
Proof.
  unfold updateZoneIdMapper, Zones. apply noPanic_bind.
  - destruct (zoneIDFilterConfigured _); [apply zoneDetailsLoop_noPanic|].
    repeat noPanic_step. destruct a; noPanic_step.
  - intros [zones [e|]]; repeat noPanic_step.
Qed.

Lemma listDNSRecordsPages_noPanic fuel p zoneID records params :
  noPanic (listDNSRecordsPages fuel p zoneID records params).
Proof.
  revert records params.
  induction fuel as [|fuel IH]; intros records params; simpl; [noPanic_step|].
  repeat noPanic_step. destruct a as [[pageRecords resultInfo]|e]; [|noPanic_step].
  destruct (Done _); [noPanic_step|apply IH].
Qed.

Lemma createLoop_noPanic p create m ps :
  Forall hasTarget create → noPanic (createLoop p create m ps).
Proof.
  intros Hall. revert m ps.
  induction Hall as [|ep create Hep _ IH]; intros m ps; simpl; [noPanic_step|].
  case_decide as HA; [apply IH|].
  destruct (Targets ep) eqn:HT; [by destruct Hep; [destruct (decide (RecordType ep = RecordTypeA))|]|].
  repeat noPanic_step. case_decide; [|apply IH].
  repeat noPanic_step. apply IH.
Qed.

Lemma updateLoop_noPanic fuel p updateNew m ps :
  Forall hasTarget updateNew → noPanic (updateLoop fuel p updateNew m ps).
Proof.
  intros Hall. revert m ps.
  induction Hall as [|ep updateNew Hep _ IH]; intros m ps; simpl; [noPanic_step|].
  case_decide as HA; [apply IH|].
  destruct (Targets ep) eqn:HT; [by destruct Hep; [destruct (decide (RecordType ep = RecordTypeA))|]|].
  repeat noPanic_step. case_decide.
  - repeat noPanic_step. apply IH.
  - apply noPanic_bind; [apply listDNSRecordsPages_noPanic|].
    intros [records|e]; [apply IH|noPanic_step].
Qed.

Lemma deleteLoop_noPanic fuel p delete m ps :
  noPanic (deleteLoop fuel p delete m ps).
Proof.
  revert m ps. induction delete as [|ep delete IH]; intros m ps; simpl.
  - noPanic_step.
  - case_decide; [apply IH|].
    repeat noPanic_step. case_decide.
    + repeat noPanic_step. apply IH.
    + apply noPanic_bind; [apply listDNSRecordsPages_noPanic|].
      intros [records|e]; [apply IH|noPanic_step].
Qed.

Lemma prepare_noPanic fuel p changes :
  Forall hasTarget (Create changes ++ UpdateNew changes) →
  noPanic (prepare fuel p changes).
Proof.
  intros [Hc Hu]%Forall_app. unfold prepare.
  apply noPanic_bind; [apply updateZoneIdMapper_noPanic|].
  intros [e|]; [noPanic_step|]. repeat noPanic_step.
  destruct a as [oldConfigResult|e]; [|noPanic_step].
  destruct (loadIngress _ _ _) as [m catchAll].
  apply noPanic_bind; [by apply createLoop_noPanic|]. intros [m1 cs].
  apply noPanic_bind; [by apply updateLoop_noPanic|]. intros [m2 us].
  apply noPanic_bind; [apply deleteLoop_noPanic|]. intros [m3 ds].
  noPanic_step.
Qed.

Lemma runCreates_noPanic p ps : noPanic (runCreates p ps).
Proof.
  induction ps as [|cp ps IH]; simpl; [noPanic_step|].
  repeat noPanic_step; [|apply IH]. destruct a; noPanic_step.
Qed.

Lemma runUpdates_noPanic p ps : noPanic (runUpdates p ps).
Proof.
  induction ps as [|up ps IH]; simpl; [noPanic_step|].
  repeat noPanic_step; [|apply IH]. destruct a; noPanic_step.
Qed.

Lemma runDeletes_noPanic p ps : noPanic (runDeletes p ps).
Proof.
  induction ps as [|dp ps IH]; simpl; [noPanic_step|].
  repeat noPanic_step; [|apply IH]. destruct a; noPanic_step.
Qed.

Lemma push_noPanic p pre : noPanic (push p pre).
Proof.
  unfold push, runDNS. repeat noPanic_step. destruct a; [|noPanic_step].
  apply noPanic_bind; [apply runCreates_noPanic|]. intros _.
  apply noPanic_bind; [apply runUpdates_noPanic|]. intros _.
  apply noPanic_bind; [apply runDeletes_noPanic|]. intros _. noPanic_step.
Qed.

Lemma createLoop_panics p create m ps st :
  Exists lacksTarget create → snd (createLoop p create m ps st) = Panic.
Proof.
  intros Hex. revert m ps st.
  induction create as [|ep create IH]; intros m ps st; [by inversion Hex|].
  simpl. apply Exists_cons in Hex as [[HA HT]|Hex].
  - rewrite decide_False by (by intros []). by rewrite HT.
  - case_decide; [by apply IH|].
    destruct (Targets ep); [done|].
    unfold findZone, gets, bind. simpl.
    case_decide; simpl; by apply IH.
Qed.

Lemma createLoop_total p create m ps st :
  Forall hasTarget create → ∃ st' r, createLoop p create m ps st = (st', Ret r).
Proof.
  intros Hall. revert m ps st.
  induction Hall as [|ep create Hep _ IH]; intros m ps st; simpl; [by eexists _, _|].
  case_decide as HA; [apply IH|].
  destruct (Targets ep) eqn:HT; [by destruct Hep; [destruct (decide (RecordType ep = RecordTypeA))|]|].
  unfold findZone, gets, bind. simpl.
  case_decide; simpl; apply IH.
Qed.

Lemma updateLoop_panics fuel p skipped e rest m ps st :
  Forall (λ e, RecordType e ≠ RecordTypeA) skipped →
  lacksTarget e →
  snd (updateLoop fuel p (skipped ++ e :: rest) m ps st) = Panic.
Proof.
  intros Hskip [HA HT]. induction Hskip as [|x skipped Hx _ IH]; simpl.
  - rewrite decide_False by (by intros []). by rewrite HT.
  - by rewrite decide_True.
Qed.

(** C10: [ApplyChanges] reads [Targets[0]] of every A endpoint of [Create]
    and of [UpdateNew] without a test. It cannot panic when each of them has
    a target; and once the two reads succeed, an A endpoint without target
    in [Create], or one met first among the A endpoints of [UpdateNew] when
    [Create] is fine, makes it panic with the index out of range. *)
Theorem C10_Targets0_needs_a_target fuel p changes st :
  (Forall hasTarget (Create changes ++ UpdateNew changes) →
     snd (ApplyChanges fuel p changes st) ≠ Panic)
  ∧ (∀ st1 w res,
       updateZoneIdMapper p st = (st1, Ret None) →
       GetTunnelConfiguration (Client p) (accountId p) (tunnelId p) (world st1)
         = (w, ok res) →
       (Exists lacksTarget (Create changes) →
          snd (ApplyChanges fuel p changes st) = Panic)
       ∧ (∀ skipped e rest,
            Forall hasTarget (Create changes) →
            UpdateNew changes = skipped ++ e :: rest →
            Forall (λ e, RecordType e ≠ RecordTypeA) skipped →
            lacksTarget e →
            snd (ApplyChanges fuel p changes st) = Panic)).
Proof.
  split.
  - intros Hall. unfold ApplyChanges.
    apply noPanic_bind; [by apply prepare_noPanic|].
    intros pre. destruct (DryRun p); [noPanic_step|apply push_noPanic].
  - intros st1 w res Hzones Hget.
    assert (∀ st', prepare fuel p changes st = (st', Panic) →
                   snd (ApplyChanges fuel p changes st) = Panic) as Hup.
    { intros st' Hpre. unfold ApplyChanges. by erewrite bind_Panic by exact Hpre. }
    split.
    + intros Hex. unfold prepare in Hup.
      erewrite bind_Ret in Hup by exact Hzones. cbv beta iota in Hup.
      erewrite bind_Ret in Hup by (by apply invoke_run). simpl in Hup.
      destruct (loadIngress _ _ _) as [m c].
      match type of Hup with
      | context [bind (createLoop ?p ?l ?m ?ps) _ ?s] =>
          pose proof (createLoop_panics p l m ps s Hex) as Hc;
          destruct (createLoop p l m ps s) as [s3 o] eqn:Hrun
      end.
      simpl in Hc. subst o. eapply Hup. by erewrite bind_Panic by exact Hrun.
    + intros skipped e rest Hcreate HU Hskip He. unfold prepare in Hup.
      erewrite bind_Ret in Hup by exact Hzones. cbv beta iota in Hup.
      erewrite bind_Ret in Hup by (by apply invoke_run). simpl in Hup.
      destruct (loadIngress _ _ _) as [m c].
      match type of Hup with
      | context [bind (createLoop ?p ?l ?m ?ps) _ ?s] =>
          destruct (createLoop_total p l m ps s Hcreate) as (s3 & [m1 cs] & Hrun)
      end.
      erewrite bind_Ret in Hup by exact Hrun. cbv beta iota in Hup.
      rewrite HU in Hup.
      pose proof (updateLoop_panics fuel p skipped e rest m1 [] s3 Hskip He) as Hu.
      destruct (updateLoop _ _ _ _ _ _) as [s4 o] eqn:Hrun2.
      simpl in Hu. subst o. eapply Hup. by erewrite bind_Panic by exact Hrun2.
Qed.


(** *** The DNS-record phase *)

Lemma failuresLogged_app a b :
  failuresLogged a = true → failuresLogged (a ++ b) = failuresLogged b.
Proof.
  remember (length a) as n eqn:Hn. revert a Hn.
  induction n as [n IH] using lt_wf_ind. intros a Hn Ha.
  destruct a as [|[r [e|]|s] a]; simpl in *; try done.
  - destruct a as [|[|s] a']; try done. simpl in *.
    apply andb_true_iff in Ha as [-> Ha]. simpl.
    eapply IH; [|reflexivity|done]. subst. simpl. lia.
  - eapply IH; [|reflexivity|done]. subst. simpl. lia.
Qed.

Lemma ranAll_ret : ranAll (W:=W) (ret tt) [].
Proof. intros st. exists st, []. by rewrite app_nil_r. Qed.

Lemma ranAll_bind (m1 m2 : M (State W) unit) reqs1 reqs2 :
  ranAll m1 reqs1 → ranAll m2 reqs2 →
  ranAll (bind m1 (λ _, m2)) (reqs1 ++ reqs2).
Proof.
  intros H1' H2' st.
  destruct (H1' st) as (st1 & new1 & Hrun1 & Hev1 & Hc1 & Hl1 & Hd1).
  destruct (H2' st1) as (st2 & new2 & Hrun2 & Hev2 & Hc2 & Hl2 & Hd2).
  exists st2, (new1 ++ new2). erewrite bind_Ret by exact Hrun1.
  split_and!; [done| | | |].
  - by rewrite Hev2, Hev1, app_assoc.
  - by rewrite omap_app, Hc1, Hc2.
  - by rewrite failuresLogged_app.
  - by apply Forall_app.
Qed.

Lemma ranAll_call {A} req (f : W → W * Resp A) :
  dnsRecordCall (Called req None) = Some req →
  ranAll (bind (invoke req f)
               (λ r, match r with
                     | err e => print (failureLine req e)
                     | ok _ => ret tt
                     end))
         [req].
Proof.
  intros Hreq st. destruct (f (world st)) as [w r] eqn:Hf.
  erewrite bind_Ret by (by apply invoke_run).
  destruct req; try done; destruct r as [a|e]; simpl.
  all: eexists _, _; split; [reflexivity|]; simpl.
  all: split; [first [reflexivity | by rewrite <- app_assoc]|].
  all: split; [reflexivity|]; split; [|by repeat constructor].
  all: cbn [failuresLogged app]; try reflexivity.
  all: by rewrite bool_decide_eq_true_2 by reflexivity.
Qed.

Lemma runCreates_ranAll p ps :
  ranAll (runCreates p ps) ((λ cp, ReqCreateDNSRecord (cp_ZoneID cp) cp) <$> ps).
Proof.
  induction ps as [|cp ps IH]; simpl; [apply ranAll_ret|].
  pose proof (ranAll_bind _ _ _ _
    (ranAll_call (ReqCreateDNSRecord (cp_ZoneID cp) cp)
       (CreateDNSRecord (Client p) (cp_ZoneID cp) cp) eq_refl) IH) as Hb.
  intros st. destruct (Hb st) as (st' & new & Hrun & Hrest).
  exists st', new. split; [|done]. rewrite <- Hrun.
  unfold bind. by destruct (invoke _ _ st) as [? [[]| | |]].
Qed.

Lemma runUpdates_ranAll p ps :
  ranAll (runUpdates p ps)
         ((λ up, ReqUpdateDNSRecord (upd_ZoneID up) (cfup up)) <$> ps).
Proof.
  induction ps as [|up ps IH]; simpl; [apply ranAll_ret|].
  pose proof (ranAll_bind _ _ _ _
    (ranAll_call (ReqUpdateDNSRecord (upd_ZoneID up) (cfup up))
       (UpdateDNSRecord (Client p) (upd_ZoneID up) (cfup up)) eq_refl) IH) as Hb.
  intros st. destruct (Hb st) as (st' & new & Hrun & Hrest).
  exists st', new. split; [|done]. rewrite <- Hrun.
  unfold bind. by destruct (invoke _ _ st) as [? [[]| | |]].
Qed.

Lemma runDeletes_ranAll p ps :
  ranAll (runDeletes p ps)
         ((λ dp, ReqDeleteDNSRecord (del_ZoneID dp) (recordID dp)) <$> ps).
Proof.
  induction ps as [|dp ps IH]; simpl; [apply ranAll_ret|].
  pose proof (ranAll_bind _ _ _ _
    (ranAll_call (ReqDeleteDNSRecord (del_ZoneID dp) (recordID dp))
       (DeleteDNSRecord (Client p) (del_ZoneID dp) (recordID dp)) eq_refl) IH) as Hb.
  intros st. destruct (Hb st) as (st' & new & Hrun & Hrest).
  exists st', new. split; [|done]. rewrite <- Hrun.
  unfold bind. by destruct (invoke _ _ st) as [? [[]| | |]].
Qed.

Lemma runDNS_ranAll p pre : ranAll (runDNS p pre) (queuedCalls pre).
Proof.
  unfold runDNS, queuedCalls.
  apply ranAll_bind; [apply runCreates_ranAll|].
  apply ranAll_bind; [apply runUpdates_ranAll|].
  rewrite <- (app_nil_r (_ <$> dnsDeleteParams pre)).
  apply ranAll_bind; [apply runDeletes_ranAll|apply ranAll_ret].
Qed.

(** C6: without [DryRun], once the tunnel configuration is pushed,
    [ApplyChanges] makes every queued DNS-record call: the creates, then the
    updates, then the deletes, each in its queue's order. A call that fails
    is followed by its printed line and by the next call, and [ApplyChanges]
    returns nil whatever failed. *)
Theorem C6_dns_calls_run_independently fuel p changes st st1 prepared w r :
  DryRun p = false →
  prepare fuel p changes st = (st1, Ret prepared) →
  UpdateTunnelConfiguration (Client p) (accountId p) (tunnelConfigParam prepared)
    (world st1) = (w, ok r) →
  ∃ st' new,
    ApplyChanges fuel p changes st = (st', Ret tt)
    ∧ events st'
      = events st1
        ++ Called (ReqUpdateTunnelConfiguration (accountId p)
                     (tunnelConfigParam prepared)) None
        :: new
    ∧ omap dnsRecordCall new = queuedCalls prepared
    ∧ failuresLogged new = true
    ∧ Forall (λ ev, dnsRecordEvent ev = true) new.
Proof.
  intros Hdry Hpre Hpush. unfold ApplyChanges.
  erewrite bind_Ret by exact Hpre. rewrite Hdry. unfold push.
  erewrite bind_Ret by (by apply invoke_run). cbv beta iota.
  match goal with |- context [runDNS p prepared ?s] =>
    destruct (runDNS_ranAll p prepared s) as (st' & new & Hrun & Hev & Hrest)
  end.
  exists st', new. split; [done|]. split; [|done].
  rewrite Hev. simpl. by rewrite <- app_assoc.
Qed.


(** *** Loading the old rules and assembling the new list *)

Lemma loadIngress_no_catch_all rules m c0 :
  Forall (λ r, Hostname r ≠ "") rules →
  loadIngress rules m c0 = (addAll rules m, c0).
Proof.
  intros Hall. revert m. induction Hall as [|r rules Hr _ IH]; intros m; [done|].
  simpl. rewrite decide_False by done. apply IH.
Qed.

Lemma loadIngress_until_catch_all rules c rest m c0 :
  Forall (λ r, Hostname r ≠ "") rules →
  Hostname c = "" →
  loadIngress (rules ++ c :: rest) m c0 = (addAll rules m, c).
Proof.
  intros Hall Hc. revert m. induction Hall as [|r rules Hr _ IH]; intros m; simpl.
  - by rewrite decide_True.
  - rewrite decide_False by done. apply IH.
Qed.

Lemma calls_app cs1 cs2 m : calls (cs1 ++ cs2) m = calls cs2 (calls cs1 m).
Proof. unfold calls. by rewrite foldl_app. Qed.

Lemma createLoop_returns p create m ps :
  returns (λ r, fst r = calls ((λ e, CallAdd (desiredRule e)) <$> filter isA create) m)
          (createLoop p create m ps).
Proof.
  revert m ps. induction create as [|ep create IH]; intros m ps; simpl.
  - by apply returns_ret.
  - case_decide as HA.
    + rewrite filter_cons_False by done. apply IH.
    + rewrite filter_cons_True by (by destruct (decide (RecordType ep = RecordTypeA))).
      destruct (Targets ep) as [|target0 targets] eqn:HT; [apply returns_panic|].
      apply returns_bind. intros zoneID.
      assert (desiredRule ep
              = mkRule (DNSName ep) "" (convertHttps target0)
                       (Some defaultOriginRequestConfig)) as <-
        by (unfold desiredRule; by rewrite HT).
      case_decide; [apply returns_bind; intros _|]; apply IH.
Qed.

Lemma updateLoop_returns fuel p updateNew m ps :
  returns (λ r, fst r = calls ((λ e, CallUpdate (desiredRule e)) <$> filter isA updateNew) m)
          (updateLoop fuel p updateNew m ps).
Proof.
  revert m ps. induction updateNew as [|ep updateNew IH]; intros m ps; simpl.
  - by apply returns_ret.
  - case_decide as HA.
    + rewrite filter_cons_False by done. apply IH.
    + rewrite filter_cons_True by (by destruct (decide (RecordType ep = RecordTypeA))).
      destruct (Targets ep) as [|target0 targets] eqn:HT; [apply returns_panic|].
      apply returns_bind. intros zoneID.
      assert (desiredRule ep
              = mkRule (DNSName ep) "" (convertHttps target0)
                       (Some defaultOriginRequestConfig)) as <-
        by (unfold desiredRule; by rewrite HT).
      case_decide; [apply returns_bind; intros _; apply IH|].
      apply returns_bind. intros [records|e]; [apply IH|apply returns_fail].
Qed.

Lemma deleteLoop_returns fuel p delete m ps :
  returns (λ r, fst r = calls ((λ e, CallRemove (removedRule e)) <$> filter isA delete) m)
          (deleteLoop fuel p delete m ps).
Proof.
  revert m ps. induction delete as [|ep delete IH]; intros m ps; simpl.
  - by apply returns_ret.
  - case_decide as HA.
    + rewrite filter_cons_False by done. apply IH.
    + rewrite filter_cons_True by (by destruct (decide (RecordType ep = RecordTypeA))).
      apply returns_bind. intros zoneID.
      case_decide; [apply returns_bind; intros _; apply IH|].
      apply returns_bind. intros [records|e]; [apply IH|apply returns_fail].
Qed.

(** What a successful preparation has read and computed. *)
Lemma prepare_inv fuel p changes st st1 pre :
  prepare fuel p changes st = (st1, Ret pre) →
  let old := Ingress (res_Config (oldConfigResult pre)) in
  let loaded := loadIngress old (NewOrderedMap (Z.of_nat (length old))) zeroRule in
  (∃ st0 w,
     updateZoneIdMapper p st = (st0, Ret None)
     ∧ GetTunnelConfiguration (Client p) (accountId p) (tunnelId p) (world st0)
       = (w, ok (oldConfigResult pre)))
  ∧ ingressConfigs pre = calls (ingressCalls changes) (fst loaded)
  ∧ catchAll pre = snd loaded
  ∧ tunnelConfigParam pre
    = {| par_TunnelID := tunnelId p;
         par_Config :=
           {| Ingress := Get (ingressConfigs pre) ++ [catchAll pre];
              WarpRouting := WarpRouting (res_Config (oldConfigResult pre));
              ConfigOriginRequest :=
                ConfigOriginRequest (res_Config (oldConfigResult pre)) |} |}.
Proof.
  unfold prepare. unfold bind at 1.
  destruct (updateZoneIdMapper p st) as [st0 [[e|]| | |]] eqn:Hz; try done.
  unfold bind at 1, invoke.
  destruct (GetTunnelConfiguration _ _ _ _) as [w [res|e]] eqn:Hg; simpl; try done.
  destruct (loadIngress _ _ _) as [m c] eqn:Hl.
  intros Hrun.
  set (Q := λ pre : Prepared,
         ingressConfigs pre = calls (ingressCalls changes) m
         ∧ oldConfigResult pre = res ∧ catchAll pre = c
         ∧ tunnelConfigParam pre
           = {| par_TunnelID := tunnelId p;
                par_Config :=
                  {| Ingress := Get (ingressConfigs pre) ++ [catchAll pre];
                     WarpRouting := WarpRouting (res_Config res);
                     ConfigOriginRequest := ConfigOriginRequest (res_Config res) |} |}).
  cut (Q pre).
  { intros (Hm & -> & Hc & Hp). rewrite Hl. simpl. eauto 10. }
  match type of Hrun with
  | ?body ?s = _ => assert (returns Q body) as Hret; [|exact (Hret _ _ _ Hrun)]
  end.
  eapply returns_bind_post; [apply createLoop_returns|].
  intros [m1 cs] Hm1. simpl in Hm1.
  eapply returns_bind_post; [apply updateLoop_returns|].
  intros [m2 us] Hm2. simpl in Hm2.
  eapply returns_bind_post; [apply deleteLoop_returns|].
  intros [m3 ds] Hm3. simpl in Hm3.
  apply returns_ret. unfold Q. simpl. split_and!; try done.
  unfold ingressCalls. by rewrite !calls_app, <- Hm1, <- Hm2.
Qed.

(** C2 (as amended): the rules of the fetched configuration that come before
    the first rule with an empty hostname are added to the ordered map in
    order, that rule is kept as the catch-all (the zero rule when there is
    none), and the rules after it are not loaded. The new ingress list is the
    content of the ordered map after the changes, in its order, followed by
    the catch-all; it is the list sent by [UpdateTunnelConfiguration]. *)
Theorem C2_ingress_loaded_until_catch_all fuel p changes st st1 prepared :
  prepare fuel p changes st = (st1, Ret prepared) →
  let old := Ingress (res_Config (oldConfigResult prepared)) in
  let fresh := NewOrderedMap (Z.of_nat (length old)) in
  (∃ st0 w,
     updateZoneIdMapper p st = (st0, Ret None)
     ∧ GetTunnelConfiguration (Client p) (accountId p) (tunnelId p) (world st0)
       = (w, ok (oldConfigResult prepared)))
  ∧ (∀ rules, Forall (λ r, Hostname r ≠ "") rules →
       (old = rules →
          ingressConfigs prepared = calls (ingressCalls changes) (addAll rules fresh)
          ∧ catchAll prepared = zeroRule)
       ∧ (∀ c rest, Hostname c = "" → old = rules ++ c :: rest →
            ingressConfigs prepared = calls (ingressCalls changes) (addAll rules fresh)
            ∧ catchAll prepared = c))
  ∧ Ingress (par_Config (tunnelConfigParam prepared))
    = Get (ingressConfigs prepared) ++ [catchAll prepared]
  ∧ (DryRun p = false →
     ∃ st' out o new,
       ApplyChanges fuel p changes st = (st', out)
       ∧ events st'
         = events st1
           ++ Called (ReqUpdateTunnelConfiguration (accountId p)
                        (tunnelConfigParam prepared)) o
           :: new
       ∧ Forall (λ ev, dnsRecordEvent ev = true) new).
Proof.
  intros Hpre old fresh.
  destruct (prepare_inv _ _ _ _ _ _ Hpre) as (Hread & Hm & Hc & Hp).
  fold old in Hm, Hc. fold fresh in Hm, Hc.
  split_and!.
  - done.
  - intros rules Hall. split.
    + intros Hold. rewrite Hm, Hc, Hold.
      by rewrite loadIngress_no_catch_all.
    + intros c rest Hcatch Hold. rewrite Hm, Hc, Hold.
      by rewrite loadIngress_until_catch_all.
  - by rewrite Hp.
  - intros Hdry. unfold ApplyChanges.
    erewrite bind_Ret by exact Hpre. rewrite Hdry. unfold push.
    destruct (UpdateTunnelConfiguration (Client p) (accountId p)
                (tunnelConfigParam prepared) (world st1)) as [w [r|e]] eqn:Hpush.
    + erewrite bind_Ret by (by apply invoke_run). cbv beta iota.
      match goal with |- context [runDNS p prepared ?s] =>
        destruct (runDNS_ranAll p prepared s) as (st' & new & Hrun & Hev & _ & _ & Hd)
      end.
      exists st', (Ret tt), None, new. split; [done|]. split; [|done].
      rewrite Hev. simpl. by rewrite <- app_assoc.
    + erewrite bind_Ret by (by apply invoke_run). cbv beta iota.
      eexists _, _, (Some e), []. split; [reflexivity|]. by split.
Qed.

(** *** The dry run *)







End CloudflareFacts.

Section OciFacts.
Import exec oci.
Context {W : Type} `{ProviderPkg} `{EndpointPkg} `{DnsSDK} `{MapIteration}.
Context (clock : W → Z).
Implicit Types (p : OCIProvider W) (st : State W).
Local Open Scope exec_scope.

Local Abbreviation emitsOCI := (emits (oci.events (W:=W))).

(** *** Building the operations *)

(** C7 (as amended): [newRecordOperation] turns an endpoint into one
    operation on the endpoint's name and type, whose rdata is the targets
    joined by one space, the first target (and only the first) being
    trailing-dot-normalized when the type is CNAME, and whose TTL is the
    endpoint's TTL when configured and 300 otherwise; a CNAME endpoint needs
    a target for this. [newFilteredRecordOperations] yields, in order,
    exactly one such operation per endpoint that passes the domain filter. *)
Theorem C7_one_operation_per_endpoint p (endpoints : list Endpoint) opType :
  Forall (λ ep, domainFilter p (DNSName ep) = true → cnameHasTarget ep) endpoints →
  ∃ ops,
    newFilteredRecordOperations p endpoints opType = Some ops
    ∧ Forall2
        (λ ep op,
           newRecordOperation ep opType = Some op
           ∧ Domain op = DNSName ep
           ∧ Rtype op = RecordType ep
           ∧ Operation op = opType
           ∧ Rdata op
             = String.concat " "
                 (if decide (RecordType ep = RecordTypeCNAME)
                  then alter EnsureTrailingDot 0%nat (Targets ep)
                  else Targets ep)
           ∧ Ttl op
             = (if IsConfigured (RecordTTL ep) then RecordTTL ep else 300))
        (filter (λ ep, domainFilter p (DNSName ep) = true) endpoints) ops
    ∧ length ops
      = length (filter (λ ep, domainFilter p (DNSName ep) = true) endpoints).
Proof.
  intros Hall.
  cut (∀ acc, ∃ ops,
         newFilteredRecordOperationsFrom p endpoints opType acc = Some (acc ++ ops)
         ∧ Forall2
             (λ ep op,
                newRecordOperation ep opType = Some op
                ∧ Domain op = DNSName ep
                ∧ Rtype op = RecordType ep
                ∧ Operation op = opType
                ∧ Rdata op
                  = String.concat " "
                      (if decide (RecordType ep = RecordTypeCNAME)
                       then alter EnsureTrailingDot 0%nat (Targets ep)
                       else Targets ep)
                ∧ Ttl op
                  = (if IsConfigured (RecordTTL ep) then RecordTTL ep else 300))
             (filter (λ ep, domainFilter p (DNSName ep) = true) endpoints) ops).
  { intros Hacc. destruct (Hacc []) as (ops & Hrun & Hops).
    exists ops. split_and!; [done|done|]. symmetry. by eapply Forall2_length. }
  induction Hall as [|ep endpoints Hep _ IH]; intros acc; simpl.
  - exists []. by rewrite app_nil_r.
  - destruct (domainFilter p (DNSName ep)) eqn:Hmatch.
    + rewrite filter_cons_True by done.
      assert (∃ op, newRecordOperation ep opType = Some op
                    ∧ Domain op = DNSName ep
                    ∧ Rtype op = RecordType ep
                    ∧ Operation op = opType
                    ∧ Rdata op
                      = String.concat " "
                          (if decide (RecordType ep = RecordTypeCNAME)
                           then alter EnsureTrailingDot 0%nat (Targets ep)
                           else Targets ep)
                    ∧ Ttl op
                      = (if IsConfigured (RecordTTL ep) then RecordTTL ep else 300))
        as (op & Hop & Hrest).
      { unfold newRecordOperation. case_decide as HC.
        - destruct (Targets ep) as [|t0 ts] eqn:HT; [by destruct (Hep eq_refl HC)|].
          eexists. split; [reflexivity|]. by simpl.
        - eexists. split; [reflexivity|]. by simpl. }
      rewrite Hop. destruct (IH (acc ++ [op])) as (ops & Hrun & Hops).
      exists (op :: ops). rewrite Hrun, <- app_assoc. split; [done|].
      by constructor.
    + rewrite filter_cons_False by (by rewrite Hmatch). apply IH.
Qed.

Lemma newFilteredRecordOperations_excluded p endpoints opType acc :
  Forall (λ ep, domainFilter p (DNSName ep) = false) endpoints →
  newFilteredRecordOperationsFrom p endpoints opType acc = Some acc.
Proof.
  induction 1 as [|ep endpoints Hep _ IH]; simpl; [done|]. by rewrite Hep.
Qed.

(** C8 (as amended): when the domain filter excludes every endpoint of the
    changes (or there is none), no operation results and [ApplyChanges]
    returns nil at once: no vendor call is made and the state is the one it
    started from. The record types play no part. *)
Theorem C8_no_operation_no_call fuel p changes st :
  Forall (λ ep, domainFilter p (DNSName ep) = false) (allEndpoints changes) →
  ApplyChanges clock fuel p changes st = (st, Ret tt)
  ∧ events (fst (ApplyChanges clock fuel p changes st)) = events st.
Proof.
  unfold allEndpoints. rewrite !Forall_app. intros (Hc & Hun & Huo & Hd).
  assert (ApplyChanges clock fuel p changes st = (st, Ret tt)) as Hrun.
  { unfold ApplyChanges, newFilteredRecordOperations.
    rewrite !newFilteredRecordOperations_excluded by done. done. }
  by rewrite Hrun.
Qed.


(** *** Patching the zones *)

Lemma emits_invoke_ListZones {A} request (f : W → W * Resp A) :
  emitsOCI listing (invoke (ReqListZones request) f).
Proof.
  intros st. unfold invoke. destruct (f (world st)) as [w r]. simpl.
  eexists. split; [done|]. by repeat constructor.
Qed.

Lemma addPaginatedZones_emits fuel p zones scope page :
  emitsOCI listing (addPaginatedZones fuel p zones scope page).
Proof.
  revert zones page.
  induction fuel as [|fuel IH]; intros zones page; simpl; [apply emits_outOfFuel|].
  apply emits_bind; [apply emits_invoke_ListZones|].
  intros [resp|e]; [|apply emits_ret].
  destruct (OpcNextPage resp); [apply IH|apply emits_ret].
Qed.

Lemma zonesScopes_emits fuel p scopes zones :
  emitsOCI listing (zonesScopes fuel p scopes zones).
Proof.
  revert zones. induction scopes as [|scope scopes IH]; intros zones; simpl.
  - apply emits_ret.
  - apply emits_bind; [apply addPaginatedZones_emits|].
    intros [zones'|e]; [apply IH|apply emits_ret].
Qed.

Lemma zones_emits fuel p : emitsOCI listing (zones clock fuel p).
Proof.
  unfold zones. apply emits_bind; [apply emits_gets|]. intros st0.
  destruct (negb _); [apply emits_ret|].
  apply emits_bind; [apply zonesScopes_emits|].
  intros [zones'|e]; [|apply emits_ret].
  apply emits_bind; [by apply emits_modify|]. intros _. apply emits_ret.
Qed.

(** The patch loop stops at the first zone whose patch fails: the zones
    before it were patched, the ones after it are not called. *)
Lemma patchZones_spec p zs st :
  ∃ st' out patched,
    patchZones p zs st = (st', out)
    ∧ ((out = Ret tt ∧ zs = patched
        ∧ events st' = events st ++ ((λ z, patchOk (patchRequest p z)) <$> patched))
       ∨ (∃ z e rest,
            out = Fail e ∧ zs = patched ++ z :: rest
            ∧ events st'
              = events st ++ ((λ z, patchOk (patchRequest p z)) <$> patched)
                ++ [Called (ReqPatchZoneRecords (patchRequest p z)) (Some e)])).
Proof.
  revert st. induction zs as [|[zoneID ops] zs IH]; intros st; simpl.
  - exists st, (Ret tt), []. split; [done|]. left. by rewrite app_nil_r.
  - unfold bind at 1, invoke.
    destruct (PatchZoneRecords _ _ _) as [w [[]|e]] eqn:Hpatch; simpl.
    + match goal with |- context [patchZones p zs ?s] =>
        destruct (IH s) as (st' & out & patched & Hrun & Hcases)
      end.
      exists st', out, ((zoneID, ops) :: patched). split; [done|].
      destruct Hcases as [(-> & -> & Hev)|(z & e & rest & -> & -> & Hev)];
        [left|right; exists z, e, rest]; split_and!; try done;
        rewrite Hev; simpl; by rewrite <- app_assoc.
    + eexists _, _, []. split; [reflexivity|]. right.
      by exists (zoneID, ops), e, zs.
Qed.

(** What [ApplyChanges] adds to the events: either no failed patch at all,
    or listing calls, successful patches of a run of zones in the order of
    the loop, and the failed patch of the next zone, whose error it
    returns. *)
Lemma ApplyChanges_events fuel p changes st :
  ∃ st' out new,
    ApplyChanges clock fuel p changes st = (st', out)
    ∧ events st' = events st ++ new
    ∧ (Forall (λ ev, failedPatch ev = false) new
       ∨ ∃ lists zones ops patched z rest e,
           rangeOrder 2%nat (operationsByZone zones ops) = patched ++ z :: rest
           ∧ Forall listing lists
           ∧ new = lists ++ ((λ z, patchOk (patchRequest p z)) <$> patched)
                   ++ [Called (ReqPatchZoneRecords (patchRequest p z)) (Some e)]
           ∧ out = Fail e).
Proof.
  assert (∀ out : Outcome unit, ∃ st' out' new,
            (st, out) = (st', out') ∧ events st' = events st ++ new
            ∧ (Forall (λ ev, failedPatch ev = false) new
               ∨ ∃ lists zones ops patched z rest e,
                   rangeOrder 2%nat (operationsByZone zones ops) = patched ++ z :: rest
                   ∧ Forall listing lists
                   ∧ new = lists ++ ((λ z, patchOk (patchRequest p z)) <$> patched)
                           ++ [Called (ReqPatchZoneRecords (patchRequest p z)) (Some e)]
                   ∧ out' = Fail e)) as Hstay.
  { intros out. exists st, out, []. rewrite app_nil_r. split_and!; [done..|by left]. }
  unfold ApplyChanges.
  destruct (newFilteredRecordOperations p (Create changes) _) as [created|];
    [|apply Hstay].
  destruct (newFilteredRecordOperations p (UpdateNew changes) _) as [updatedNew|];
    [|apply Hstay].
  destruct (newFilteredRecordOperations p (UpdateOld changes) _) as [updatedOld|];
    [|apply Hstay].
  destruct (newFilteredRecordOperations p (Delete changes) _) as [deleted|];
    [|apply Hstay].
  simpl. unfold bind at 1 2 3 4. simpl.
  case_decide; [apply Hstay|].
  destruct (zones_emits fuel p st) as (lists & Hev & Hlists).
  assert (Forall (λ ev, failedPatch ev = false) lists) as Hquiet.
  { eapply Forall_impl; [exact Hlists|]. by intros [[] []]. }
  unfold bind.
  destruct (zones clock fuel p st) as [st1 [[zs|e]|e| |]]; simpl in Hev;
    try (eexists _, _, lists; split_and!; [reflexivity|done|by left]).
  destruct (dryRun p);
    [eexists _, _, lists; split_and!; [reflexivity|done|by left]|].
  match goal with |- context [patchZones p ?l st1] =>
    destruct (patchZones_spec p l st1) as (st' & out & patched & Hrun & Hcases);
    remember l as order eqn:Horder
  end.
  rewrite Hrun.
  destruct Hcases as [(-> & -> & Hev')|(z & e & rest & -> & Hzs & Hev')].
  - eexists _, _, (lists ++ _). split_and!; [reflexivity| |left].
    + by rewrite Hev', Hev, <- app_assoc.
    + apply Forall_app. split; [done|]. by apply Forall_fmap, Forall_true.
  - eexists _, _, (lists ++ _). split_and!; [reflexivity| |right].
    + by rewrite Hev', Hev, <- app_assoc.
    + exists lists, zs, (created ++ updatedNew ++ updatedOld ++ deleted),
        patched, z, rest, e.
      by rewrite <- Horder, Hzs.
Qed.

Lemma snoc_unique {A} (l1 l2 pre : list A) x x' :
  l1 ++ x :: l2 = pre ++ [x'] → x ∉ pre → l1 = pre ∧ x = x' ∧ l2 = [].
Proof.
  intros Heq Hnin. destruct l2 as [|y l2 _] using rev_ind.
  - apply app_inj_tail in Heq as [-> ->]. done.
  - rewrite app_comm_cons, app_assoc in Heq.
    apply app_inj_tail in Heq as [<- _].
    exfalso. apply Hnin. rewrite elem_of_app. right. left.
Qed.

(** C5: when a [PatchZoneRecords] call of [ApplyChanges] fails, it is the
    last thing [ApplyChanges] does: the error is returned as it is, the
    zones that come later in the loop over the partition get no call, and
    the zones that come earlier keep their successful patch (nothing is
    called to undo it). *)
Theorem C5_first_patch_failure_aborts fuel p changes st st' out before request e after :
  ApplyChanges clock fuel p changes st = (st', out) →
  events st'
    = events st ++ before ++ Called (ReqPatchZoneRecords request) (Some e) :: after →
  out = Fail e
  ∧ after = []
  ∧ ∃ zones ops patched z rest,
      rangeOrder 2%nat (operationsByZone zones ops) = patched ++ z :: rest
      ∧ NoDup (fst <$> patched ++ z :: rest)
      ∧ request = patchRequest p z
      ∧ filter (λ ev, isPatch ev = true) before
        = (λ z, patchOk (patchRequest p z)) <$> patched.
Proof.
  intros Hrun Hev.
  destruct (ApplyChanges_events fuel p changes st)
    as (st'' & out' & new & Hrun' & Hev' & Hcases).
  rewrite Hrun in Hrun'. injection Hrun' as <- <-.
  rewrite Hev' in Hev. apply app_inv_head in Hev. subst new.
  destruct Hcases as [Hnone|(lists & zs & ops & patched & z & rest & e' & Horder
                             & Hlists & Hnew & ->)].
  - apply Forall_app in Hnone as [_ Hnone]. by inversion Hnone.
  - rewrite app_assoc in Hnew.
    apply snoc_unique in Hnew as (Hbefore & [= -> ->] & ->).
    + split_and!; [done..|].
      exists zs, ops, patched, z, rest. split_and!; [done| |done|].
      * rewrite <- Horder, rangeOrder_perm. apply NoDup_fst_map_to_list.
      * rewrite Hbefore, filter_app.
        rewrite (filter_none _ lists), app_nil_l.
        -- apply filter_all, Forall_fmap, Forall_true. done.
        -- eapply Forall_impl; [exact Hlists|]. intros ev Hl. unfold listing in Hl.
           by rewrite Hl.
    + rewrite elem_of_app. intros [Hin|Hin].
      * eapply Forall_forall in Hlists; [|exact Hin]. done.
      * apply list_elem_of_fmap in Hin as (? & [=] & _).
Qed.

End OciFacts.

(** * Worked examples: where the stated claims fail, and inputs that meet
    the theorems' hypotheses *)
Section Examples.
Import cloudflare cloudflaresdk util exec standin.

(** C2, the claim as stated, fails: a rule with a hostname that comes after
    the rule with the empty hostname is neither loaded nor sent. *)
Lemma C2_rule_after_catch_all_is_dropped :
  let ingress := [ruleApp; ruleCatchAll; ruleOld] in
  let p := cfProvider ingress [] true in
  Hostname ruleOld ≠ ""
  ∧ ∃ st1 prepared,
      cloudflaretunnel.prepare 3 p (mkChanges [] [] [] []) cfStart = (st1, Ret prepared)
      ∧ Ingress (res_Config (cloudflaretunnel.oldConfigResult prepared)) = ingress
      ∧ Get (cloudflaretunnel.ingressConfigs prepared) = [ruleApp]
      ∧ Ingress (par_Config (cloudflaretunnel.tunnelConfigParam prepared))
        = [ruleApp; ruleCatchAll].
Proof.
  split; [done|]. eexists _, _. split; [vm_compute; reflexivity|].
  by vm_compute.
Qed.

Lemma C2_witness :
  ∃ st1 prepared,
    cloudflaretunnel.prepare 3 (cfProvider [ruleApp; ruleOld; ruleCatchAll] [] false)
      (mkChanges [epNew] [] [] []) cfStart = (st1, Ret prepared)
    ∧ Ingress (par_Config (cloudflaretunnel.tunnelConfigParam prepared))
      = Get (cloudflaretunnel.ingressConfigs prepared)
        ++ [cloudflaretunnel.catchAll prepared].
Proof.
  assert (∃ st1 prepared,
            cloudflaretunnel.prepare 3 (cfProvider [ruleApp; ruleOld; ruleCatchAll] [] false)
              (mkChanges [epNew] [] [] []) cfStart = (st1, Ret prepared))
    as (st1 & prepared & Hpre) by (eexists _, _; vm_compute; reflexivity).
  exists st1, prepared. split; [exact Hpre|].
  destruct (C2_ingress_loaded_until_catch_all _ _ _ _ _ _ Hpre) as (_ & _ & Hi & _).
  exact Hi.
Defined.

(** C3, the claim as stated, fails: the rule with the empty hostname is not
    ignored, it yields an endpoint with an empty DNS name. *)
Lemma C3_catch_all_yields_an_endpoint :
  let ingress := [ruleApp; ruleCatchAll] in
  snd (cloudflaretunnel.Records (cfProvider ingress [] false) cfStart)
  = Ret [mkEndpoint "app.example.com" ["https://10.0.0.1:443"] "A" 0;
         mkEndpoint "" ["http_status:404"] "A" 0]
  ∧ snd (cloudflaretunnel.Records (cfProvider ingress [] false) cfStart)
    ≠ Ret ((λ config, NewEndpoint (Hostname config) RecordTypeA [Service config])
             <$> filter (λ config, Hostname config ≠ "") ingress).
Proof. split; [by vm_compute|]. vm_compute. by intros [=]. Qed.

Lemma C3_witness :
  ∃ st' endpoints,
    cloudflaretunnel.Records (cfProvider [ruleApp; ruleCatchAll] [] false) cfStart
      = (st', Ret endpoints)
    ∧ length endpoints = 2%nat.
Proof.
  destruct (C3_Records_one_endpoint_per_rule
              (cfProvider [ruleApp; ruleCatchAll] [] false) cfStart 1%nat
              (fetched [ruleApp; ruleCatchAll]) eq_refl)
    as (st' & endpoints & Hrun & _ & _ & Hlen & _).
  exists st', endpoints. split; [exact Hrun|exact Hlen].
Defined.

Lemma C4_witness :
  let n := calls [CallAdd ruleApp; CallAdd ruleOld] (NewOrderedMap 2) in
  let s := mkRule "app.example.com" "" "https://10.0.0.7:443" None in
  keys (Update s n) = keys n
  ∧ Get (Update s n) = [s; ruleOld].
Proof.
  intros n s.
  destruct (C4_Update_absent_is_Add_present_keeps_order 2
              [CallAdd ruleApp; CallAdd ruleOld] s) as [_ Hpresent].
  destruct Hpresent as (Hkeys & _ & _ & HGet).
  { vm_compute. by eexists. }
  split; [exact Hkeys|]. fold n in HGet. rewrite HGet. by vm_compute.
Defined.

Lemma C5_witness :
  let p := ociProvider ["ocid-com"; "ocid-org"] false in
  snd (oci.ApplyChanges ociClock 3 p (mkChanges [epCom; epCname] [] [] []) ociStart)
  = Fail "patch rejected".
Proof.
  intros p.
  destruct (oci.ApplyChanges ociClock 3 p (mkChanges [epCom; epCname] [] [] []) ociStart)
    as [st' out] eqn:Hrun.
  assert (oci.events st'
          = oci.events ociStart
            ++ [oci.Called (oci.ReqListZones
                              (oci.mkListZonesRequest "compartment-1" "GLOBAL" None)) None;
                oci.Called (oci.ReqListZones
                              (oci.mkListZonesRequest "compartment-1" "PRIVATE" None)) None]
            ++ oci.Called
                 (oci.ReqPatchZoneRecords
                    (oci.mkPatchZoneRecordsRequest "compartment-1" "ocid-org"
                       [oci.mkRecordOperation "www.example.org"
                          "a.example.org. b.example.org" 600 "CNAME"
                          oci.RecordOperationOperationAdd]))
                 (Some "patch rejected")
               :: []) as Hev.
  { change st' with (fst (st', out)). rewrite <- Hrun. by vm_compute. }
  destruct (C5_first_patch_failure_aborts ociClock _ _ _ _ _ _ _ _ _ _ Hrun Hev)
    as (Hout & _).
  exact Hout.
Defined.

Lemma C6_witness :
  let p := cfProvider [ruleApp; ruleOld; ruleCatchAll] ["new.example.com"; "rec-old"] false in
  snd (cloudflaretunnel.ApplyChanges 3 p (mkChanges [epNew] [] [epApp] [epOld]) cfStart)
  = Ret tt.
Proof.
  intros p.
  assert (∃ st1 prepared,
            cloudflaretunnel.prepare 3 p (mkChanges [epNew] [] [epApp] [epOld]) cfStart
            = (st1, Ret prepared))
    as (st1 & prepared & Hpre) by (eexists _, _; vm_compute; reflexivity).
  destruct (C6_dns_calls_run_independently 3 p _ _ st1 prepared _ _ eq_refl Hpre eq_refl)
    as (st' & new & Hrun & _).
  by rewrite Hrun.
Defined.

(** C7, the claim as stated, fails: only the first target of a CNAME
    endpoint gets its trailing dot. *)
Lemma C7_second_cname_target_is_not_normalized :
  oci.Rdata <$> oci.newRecordOperation epCname oci.RecordOperationOperationAdd
  = Some "a.example.org. b.example.org"
  ∧ String.concat " " (EnsureTrailingDot <$> Targets epCname)
    = "a.example.org. b.example.org.".
Proof. split; by vm_compute. Qed.

Lemma C7_witness :
  ∃ ops,
    oci.newFilteredRecordOperations (ociProvider [] false) [epCname; epCom]
      oci.RecordOperationOperationAdd = Some ops
    ∧ length ops = 2%nat.
Proof.
  destruct (C7_one_operation_per_endpoint (ociProvider [] false) [epCname; epCom]
              oci.RecordOperationOperationAdd) as (ops & Hrun & _ & Hlen).
  { repeat constructor; intros _ _; discriminate. }
  exists ops. split; [exact Hrun|exact Hlen].
Defined.

(** C8, the claim as stated, fails: an endpoint of a record type that is
    not supported still becomes an operation, zones are listed and the
    operation is sent. *)
Lemma C8_unsupported_type_is_still_applied :
  let changes := mkChanges [epMX] [] [] [] in
  Forall (λ ep, SupportedRecordType (RecordType ep) = false) (oci.allEndpoints changes)
  ∧ oci.events (fst (oci.ApplyChanges ociClock 3 (ociProvider [] false) changes ociStart))
    = [oci.Called (oci.ReqListZones
                     (oci.mkListZonesRequest "compartment-1" "GLOBAL" None)) None;
       oci.Called (oci.ReqListZones
                     (oci.mkListZonesRequest "compartment-1" "PRIVATE" None)) None;
       oci.Called
         (oci.ReqPatchZoneRecords
            (oci.mkPatchZoneRecordsRequest "compartment-1" "ocid-com"
               [oci.mkRecordOperation "example.com" "10 mail.example.com" 300 "MX"
                  oci.RecordOperationOperationAdd]))
         None].
Proof. split; [by repeat constructor|by vm_compute]. Qed.

Lemma C8_witness :
  oci.ApplyChanges ociClock 3 ociProviderExcluding (mkChanges [epCom] [epCname] [] [epMX])
    ociStart
  = (ociStart, Ret tt).
Proof.
  apply (C8_no_operation_no_call ociClock 3 ociProviderExcluding
           (mkChanges [epCom] [epCname] [] [epMX]) ociStart).
  by repeat constructor.
Defined.



Lemma C10_witness :
  let p := cfProvider [ruleApp; ruleCatchAll] [] false in
  snd (cloudflaretunnel.ApplyChanges 3 p (mkChanges [epNew] [] [epApp] []) cfStart) ≠ Panic
  ∧ snd (cloudflaretunnel.ApplyChanges 3 p (mkChanges [epNew; epNoTarget] [] [] []) cfStart)
    = Panic
  ∧ snd (cloudflaretunnel.ApplyChanges 3 p (mkChanges [epNew] [] [epMX; epNoTarget] []) cfStart)
    = Panic.
Proof.
  intros p. split_and!.
  - apply (proj1 (C10_Targets0_needs_a_target 3 p _ cfStart)).
    repeat constructor; intros _; discriminate.
  - eapply (proj1 (proj2 (C10_Targets0_needs_a_target 3 p _ cfStart) _ _ _ eq_refl eq_refl)).
    right. left. by split.
  - eapply (proj2 (proj2 (C10_Targets0_needs_a_target 3 p _ cfStart) _ _ _ eq_refl eq_refl)
              [epMX] epNoTarget []).
    + repeat constructor; intros _; discriminate.
    + reflexivity.
    + by repeat constructor.
    + by split.
Defined.

End Examples.

(** * Further properties of the code *)

Section OrderedMapMore.
Import cloudflare util.
Implicit Types (n : OrderedMap) (s r : UnvalidatedIngressRule) (h k : string).

Lemma wf_size n : wf n → length (keys n) = size (data n).
Proof.
  intros [Hnd Hdom _].
  rewrite <- (size_dom (D:=gset string)), <- (size_list_to_set (C:=gset string)) by done.
  f_equal. apply set_eq. intros k.
  by rewrite elem_of_list_to_set, elem_of_dom.
Qed.

Lemma Get_Remove s n :
  wf n → Get (Remove s n) = filter (λ r, Hostname r ≠ Hostname s) (Get n).
Proof.
  intros Hwf. pose proof Hwf as [Hnd Hdom Hhost]. unfold Remove.
  destruct (data n !! Hostname s) as [v|] eqn:E.
  - unfold Get. simpl. rewrite removeKey_filter by done.
    pose proof (λ k, Get_lookup n k Hwf) as Hk. clear Hnd Hdom Hwf.
    induction (keys n) as [|k ks IH]; [done|].
    assert (Hostname (default zeroRule (data n !! k)) = k) as Hkk by (apply Hk; left).
    assert (∀ k', k' ∈ ks → Hostname (default zeroRule (data n !! k')) = k')
      as Hks by (intros; apply Hk; by right).
    rewrite fmap_cons. destruct (decide (k = Hostname s)) as [->|Hne].
    + rewrite filter_cons_False by naive_solver.
      rewrite (filter_cons_False _ (default zeroRule _)) by (rewrite Hkk; naive_solver).
      by apply IH.
    + rewrite filter_cons_True by done.
      rewrite (filter_cons_True _ (default zeroRule _)) by (by rewrite Hkk).
      rewrite fmap_cons, lookup_delete_ne by done. f_equal. by apply IH.
  - symmetry. apply filter_all, Forall_forall. intros r Hr Heq.
    assert (Hostname s ∈ keys n) as Hin.
    { rewrite <- Get_hostnames by done. rewrite <- Heq. by apply list_elem_of_fmap_2. }
    apply Hdom in Hin. rewrite E in Hin. by destruct Hin.
Qed.

(** X1: whatever calls built it, an ordered map lists no key twice, lists
    exactly the keys it stores, and [Get] returns each stored rule once,
    under its own hostname, in the order of the keys; [Len] is the number of
    stored rules. *)
Theorem OrderedMap_invariant cap cs :
  let n := calls cs (NewOrderedMap cap) in
  NoDup (keys n)
  ∧ (∀ k, k ∈ keys n ↔ is_Some (data n !! k))
  ∧ (Hostname <$> Get n) = keys n
  ∧ (∀ r, r ∈ Get n ↔ data n !! Hostname r = Some r)
  ∧ Len n = Z.of_nat (size (data n))
  ∧ length (Get n) = size (data n).
Proof.
  intros n. assert (wf n) as Hwf by apply wf_calls, wf_New.
  pose proof Hwf as [Hnd Hdom Hhost].
  split_and!; [done|done|by apply Get_hostnames| |..].
  - intros r. unfold Get. rewrite list_elem_of_fmap. split.
    + intros (k & -> & [v Hv]%Hdom). rewrite Hv. simpl.
      by rewrite (Hhost _ _ Hv).
    + intros Hr. exists (Hostname r). rewrite Hr. split; [done|].
      apply Hdom. by eexists.
  - unfold Len. by rewrite wf_size.
  - unfold Get. by rewrite length_fmap, wf_size.
Qed.

(** X2: [Remove] looks at the hostname only. Of an absent key it changes
    nothing; of a present key it drops the rule from the lookup and from
    [Get] (one entry fewer), and keeps the other rules and their order. *)
Theorem Remove_absent_noop_present_removed cap cs s :
  let n := calls cs (NewOrderedMap cap) in
  (data n !! Hostname s = None → Remove s n = n)
  ∧ (is_Some (data n !! Hostname s) →
     data (Remove s n) !! Hostname s = None
     ∧ (Hostname s ∉ keys (Remove s n))
     ∧ (∀ k, k ≠ Hostname s → data (Remove s n) !! k = data n !! k)
     ∧ Len (Remove s n) = Len n - 1)
  ∧ Get (Remove s n) = filter (λ r, Hostname r ≠ Hostname s) (Get n)
  ∧ (∀ s', Hostname s' = Hostname s → Remove s' n = Remove s n).
Proof.
  intros n. assert (wf n) as Hwf by apply wf_calls, wf_New.
  split_and!.
  - intros E. unfold Remove. by rewrite E.
  - intros [v E].
    assert (wf (Remove s n)) as Hwf' by (by apply wf_Remove).
    assert (data (Remove s n) = delete (Hostname s) (data n)) as Hdata
      by (unfold Remove; by rewrite E).
    split_and!.
    + by rewrite Hdata, lookup_delete_eq.
    + rewrite (wf_dom _ Hwf'), Hdata, lookup_delete_eq. by intros [? ?].
    + intros k Hk. by rewrite Hdata, lookup_delete_ne.
    + unfold Len. rewrite !wf_size, Hdata by done.
      rewrite map_size_delete_Some by (by eexists).
      assert (size (data n) ≠ 0)%nat.
      { intros Hz. apply map_size_empty_inv in Hz. by rewrite Hz, lookup_empty in E. }
      lia.
  - by apply Get_Remove.
  - intros s' Hs. unfold Remove. by rewrite Hs.
Qed.

Lemma removeKey_snoc_fresh h ks : h ∉ ks → removeKey h (ks ++ [h]) = ks.
Proof.
  induction ks as [|v ks IH]; simpl.
  - by rewrite decide_True.
  - intros [Hne Hn]%not_elem_of_cons.
    rewrite decide_False by done. by rewrite IH.
Qed.

(** X3: on any map the interface can build, adding a rule under a key that
    is not stored and removing it again gives the map back. *)
Theorem Remove_after_Add_of_fresh_key cap cs s :
  let n := calls cs (NewOrderedMap cap) in
  data n !! Hostname s = None →
  Remove s (Add s n) = n ∧ Get (Remove s (Add s n)) = Get n.
Proof.
  intros n E. assert (wf n) as Hwf by apply wf_calls, wf_New.
  assert (Remove s (Add s n) = n) as Heq; [|by rewrite Heq].
  unfold Add. rewrite E. unfold Remove. simpl. rewrite lookup_insert_eq.
  rewrite delete_insert_id by done.
  rewrite removeKey_snoc_fresh.
  - by destruct n.
  - rewrite (wf_dom _ Hwf), E. by intros [? ?].
Qed.

(** X4: [Add] of a stored key is [Remove] followed by [Add], and adding the
    same rule twice is adding it once; in both cases the key ends up last. *)
Theorem Add_moves_to_the_end cap cs s :
  let n := calls cs (NewOrderedMap cap) in
  Add s (Remove s n) = Add s n
  ∧ Add s (Add s n) = Add s n
  ∧ last (Get (Add s n)) = Some s
  ∧ Len (Add s n) = Len n + (if decide (is_Some (data n !! Hostname s)) then 0 else 1).
Proof.
  intros n. assert (wf n) as Hwf by apply wf_calls, wf_New.
  assert (∀ m m', data m = data m' → keys m = keys m' → m = m') as Hext.
  { intros [d1 k1] [d2 k2]. simpl. by intros -> ->. }
  split_and!.
  - apply Hext.
    + rewrite !data_Add. unfold Remove.
      destruct (data n !! Hostname s) eqn:E; simpl; [|done].
      by rewrite insert_delete_eq.
    + rewrite !keys_Add by (done || by apply wf_Remove). f_equal.
      unfold Remove. destruct (data n !! Hostname s) eqn:E; simpl; [|done].
      rewrite removeKey_filter by apply Hwf.
      rewrite list_filter_filter. apply list_filter_iff. naive_solver.
  - apply Hext.
    + by rewrite !data_Add, insert_insert_eq.
    + rewrite !keys_Add by (done || by apply wf_Add).
      rewrite filter_app, list_filter_filter, filter_cons_False, filter_nil, app_nil_r
        by naive_solver.
      f_equal. apply list_filter_iff. naive_solver.
  - rewrite Get_Add by done. by rewrite last_snoc.
  - unfold Len. rewrite !wf_size, data_Add by (done || by apply wf_Add).
    case_decide as Hs.
    + rewrite map_size_insert_Some by done. lia.
    + rewrite map_size_insert_None by (by apply eq_None_not_Some). lia.
Qed.

End OrderedMapMore.

Section CloudflareMore.
Import cloudflare cloudflaresdk util exec cloudflaretunnel tunnelfacts.
Context {W : Type} `{ProviderPkg} `{EndpointPkg} `{Pagination}.
Implicit Types (p : CloudFlareTunnelProvider W) (st : State W).
Local Open Scope exec_scope.

Local Abbreviation emitsCF := (emits (events (W:=W))).

(** X5: [getRecordID] returns the id of the first record of the list that
    has the name and the type asked for, and the empty string when there is
    none; the other fields of the record asked for play no part. *)
Theorem getRecordID_first_match (records : list DNSRecord) (record : DNSRecord) :
  let same := λ r, rec_Name r = rec_Name record ∧ rec_Type r = rec_Type record in
  (Forall (λ r, ¬ same r) records → getRecordID records record = "")
  ∧ (∀ before r after,
       records = before ++ r :: after →
       Forall (λ r, ¬ same r) before → same r →
       getRecordID records record = rec_ID r)
  ∧ (∀ record',
       rec_Name record' = rec_Name record → rec_Type record' = rec_Type record →
       getRecordID records record' = getRecordID records record).
Proof.
  intros same.
  assert (∀ l, Forall (λ r, ¬ same r) l → ∀ rest,
            getRecordID (l ++ rest) record = getRecordID rest record) as Hskip.
  { intros l Hl rest. induction Hl as [|r l Hr _ IH]; [done|].
    unfold getRecordID in *. simpl.
    destruct (bool_decide (rec_Name r = rec_Name record)
              && bool_decide (rec_Type r = rec_Type record)) eqn:E; [|done].
    apply andb_true_iff in E as [?%bool_decide_eq_true ?%bool_decide_eq_true].
    by destruct Hr. }
  split_and!.
  - intros Hnone. rewrite <- (app_nil_r records). by rewrite Hskip.
  - intros before r after -> Hbefore [Hn Ht]. rewrite Hskip by done.
    unfold getRecordID. simpl. by rewrite !bool_decide_eq_true_2.
  - intros record' Hn Ht. unfold getRecordID. by rewrite Hn, Ht.
Qed.

(** X6: [Records] makes one call, [GetTunnelConfiguration], whatever it
    returns, and leaves the zone mapping alone; when the call fails it
    returns the error wrapped and no endpoint. *)
Theorem Records_reads_the_tunnel_once p st :
  ∃ w r,
    GetTunnelConfiguration (Client p) (accountId p) (tunnelId p) (world st) = (w, r)
    ∧ fst (Records p st)
      = mkState w
          (events st ++ [Called (ReqGetTunnelConfiguration (accountId p) (tunnelId p))
                           (respError r)])
          (zoneNameIDMapper st)
    ∧ (∀ e, r = err e →
         snd (Records p st) = Fail ("failed to get tunnel configs: " +:+ e))
    ∧ (∀ res, r = ok res →
         ∃ endpoints, snd (Records p st) = Ret endpoints
                      ∧ length endpoints = length (Ingress (res_Config res))).
Proof.
  destruct (GetTunnelConfiguration (Client p) (accountId p) (tunnelId p) (world st))
    as [w r] eqn:Hget.
  exists w, r. split; [done|].
  unfold Records. erewrite bind_Ret by (by apply invoke_run).
  destruct r as [res|e]; simpl; split_and!; try done.
  - intros res' [= <-]. eexists. split; [done|]. by rewrite length_fmap.
  - by intros e' [= <-].
Qed.

Lemma createLoop_only_A p create m ps st :
  createLoop p (filter isA create) m ps st = createLoop p create m ps st.
Proof.
  revert m ps st. induction create as [|ep create IH]; intros m ps st; [done|].
  destruct (decide (isA ep)) as [HA|HA].
  - rewrite filter_cons_True by done. simpl.
    rewrite !decide_False by (by intros []).
    destruct (Targets ep); [done|]. unfold bind.
    destruct (findZone _ st) as [st' [zoneID| | |]]; try done.
    case_decide; [|by rewrite IH].
    destruct (print _ st') as [st'' [[]| | |]]; try done.
  - rewrite filter_cons_False by done. simpl. by rewrite decide_True.
Qed.

Lemma updateLoop_only_A fuel p updateNew m ps st :
  updateLoop fuel p (filter isA updateNew) m ps st = updateLoop fuel p updateNew m ps st.
Proof.
  revert m ps st. induction updateNew as [|ep updateNew IH]; intros m ps st; [done|].
  destruct (decide (isA ep)) as [HA|HA].
  - rewrite filter_cons_True by done. simpl.
    rewrite !decide_False by (by intros []).
    destruct (Targets ep); [done|]. unfold bind.
    destruct (findZone _ st) as [st' [zoneID| | |]]; try done.
    case_decide.
    + destruct (print _ st') as [st'' [[]| | |]]; try done.
    + destruct (listDNSRecordsWithAutoPagination _ _ _ st') as [st'' [[records|e]| | |]];
        try done.
  - rewrite filter_cons_False by done. simpl. by rewrite decide_True.
Qed.

Lemma deleteLoop_only_A fuel p delete m ps st :
  deleteLoop fuel p (filter isA delete) m ps st = deleteLoop fuel p delete m ps st.
Proof.
  revert m ps st. induction delete as [|ep delete IH]; intros m ps st; [done|].
  destruct (decide (isA ep)) as [HA|HA].
  - rewrite filter_cons_True by done. simpl.
    rewrite !decide_False by (by intros []). unfold bind.
    destruct (findZone _ st) as [st' [zoneID| | |]]; try done.
    case_decide.
    + destruct (print _ st') as [st'' [[]| | |]]; try done.
    + destruct (listDNSRecordsWithAutoPagination _ _ _ st') as [st'' [[records|e]| | |]];
        try done.
  - rewrite filter_cons_False by done. simpl. by rewrite decide_True.
Qed.

(** X7: [ApplyChanges] acts on the A endpoints of [Create], [UpdateNew] and
    [Delete] only: endpoints of another type, and all of [UpdateOld], change
    neither its result nor any call it makes. *)
Theorem ApplyChanges_acts_on_A_endpoints_only fuel p changes st :
  ApplyChanges fuel p changes st
  = ApplyChanges fuel p
      (mkChanges (filter isA (Create changes)) []
                 (filter isA (UpdateNew changes)) (filter isA (Delete changes)))
      st.
Proof.
  unfold ApplyChanges, prepare, bind. simpl.
  destruct (updateZoneIdMapper p st) as [st0 [[e|]| | |]]; try done.
  destruct (invoke _ _ st0) as [st1 [[res|e]| | |]]; try done.
  destruct (loadIngress _ _ _) as [m c].
  rewrite createLoop_only_A.
  destruct (createLoop p (Create changes) m [] st1) as [st2 [[m1 cs]| | |]]; try done.
  rewrite updateLoop_only_A.
  destruct (updateLoop fuel p (UpdateNew changes) m1 [] st2) as [st3 [[m2 us]| | |]];
    try done.
  by rewrite deleteLoop_only_A.
Qed.


(** X8: what [ApplyChanges] does at the vendor has one shape: calls that
    change nothing, then at most one [UpdateTunnelConfiguration], only
    without [DryRun] and with the configuration that the preparation of this
    very run returned after those calls, then DNS-record calls.
    When that update fails nothing follows it and its error is returned
    wrapped; when it succeeds the queued DNS-record calls are all made and
    the result is nil. Without [DryRun], a nil result means the
    configuration was pushed. *)
Theorem ApplyChanges_event_shape fuel p changes st :
  ∃ reads rest,
    events (fst (ApplyChanges fuel p changes st)) = events st ++ reads ++ rest
    ∧ Forall quiet reads
    ∧ (rest = []
       ∨ ∃ st1 prepared o dns,
           prepare fuel p changes st = (st1, Ret prepared)
           ∧ events st1 = events st ++ reads
           ∧ rest = Called (ReqUpdateTunnelConfiguration (accountId p)
                              (tunnelConfigParam prepared)) o :: dns
           ∧ DryRun p = false
           ∧ par_TunnelID (tunnelConfigParam prepared) = tunnelId p
           ∧ Forall (λ ev, dnsRecordEvent ev = true) dns
           ∧ match o with
             | Some e =>
                 dns = []
                 ∧ snd (ApplyChanges fuel p changes st)
                   = Fail ("failed to update tunnel configs: " +:+ e)
             | None =>
                 snd (ApplyChanges fuel p changes st) = Ret tt
                 ∧ omap dnsRecordCall dns = queuedCalls prepared
                 ∧ failuresLogged dns = true
             end)
    ∧ (rest = [] → DryRun p = false → snd (ApplyChanges fuel p changes st) ≠ Ret tt).
Proof.
  destruct (prepare_emits fuel p changes st) as (reads & Hev & Hreads).
  destruct (prepare fuel p changes st) as [st1 out] eqn:Hpre. simpl in Hev.
  exists reads. unfold ApplyChanges.
  destruct out as [prepared|e| |];
    [|exists []; unfold bind; rewrite Hpre; simpl; rewrite app_nil_r;
      split_and!; [done|done|by left|done]..].
  erewrite bind_Ret by exact Hpre.
  destruct (DryRun p) eqn:Hdry.
  { exists []. simpl. rewrite app_nil_r. split_and!; [done|done|by left|done]. }
  assert (par_TunnelID (tunnelConfigParam prepared) = tunnelId p) as Hid.
  { destruct (prepare_inv _ _ _ _ _ _ Hpre) as (_ & _ & _ & ->). done. }
  unfold push.
  destruct (UpdateTunnelConfiguration (Client p) (accountId p)
              (tunnelConfigParam prepared) (world st1)) as [w [r|e]] eqn:Hpush.
  - erewrite bind_Ret by (by apply invoke_run). cbv beta iota.
    match goal with |- context [runDNS p prepared ?s] =>
      destruct (runDNS_ranAll p prepared s) as (st' & dns & Hrun & Hev' & Hq & Hl & Hd)
    end.
    rewrite Hrun. simpl. eexists (_ :: dns). split_and!.
    + rewrite Hev'. simpl. by rewrite Hev, <- !app_assoc.
    + done.
    + right. by exists st1, prepared, None, dns.
    + done.
  - erewrite bind_Ret by (by apply invoke_run). cbv beta iota. simpl.
    eexists [_]. split_and!.
    + by rewrite Hev, <- app_assoc.
    + done.
    + right. by exists st1, prepared, (Some e), [].
    + done.
Qed.

(** *** What is queued *)

Lemma createLoop_queue p all create m ps :
  create ⊆ all → Forall (goodCreate p all) ps →
  returns (λ r, Forall (goodCreate p all) (snd r)) (createLoop p create m ps).
Proof.
  revert m ps. induction create as [|ep create IH]; intros m ps Hsub Hps; simpl.
  - by apply returns_ret.
  - assert (create ⊆ all) as Hsub' by set_solver.
    case_decide as HA; [by apply IH|].
    destruct (Targets ep) as [|target0 targets]; [apply returns_panic|].
    apply returns_bind. intros zoneID.
    case_decide; [apply returns_bind; intros _; by apply IH|].
    apply IH; [done|]. apply Forall_app. split; [done|].
    repeat constructor; simpl; try done.
    unfold namesOfA. apply list_elem_of_fmap_2, list_elem_of_filter.
    split; [by destruct (decide (RecordType ep = RecordTypeA))|set_solver].
Qed.

Lemma updateLoop_queue fuel p all updateNew m ps :
  updateNew ⊆ all → Forall (goodUpdate p all) ps →
  returns (λ r, Forall (goodUpdate p all) (snd r)) (updateLoop fuel p updateNew m ps).
Proof.
  revert m ps. induction updateNew as [|ep updateNew IH]; intros m ps Hsub Hps; simpl.
  - by apply returns_ret.
  - assert (updateNew ⊆ all) as Hsub' by set_solver.
    case_decide as HA; [by apply IH|].
    destruct (Targets ep) as [|target0 targets]; [apply returns_panic|].
    apply returns_bind. intros zoneID.
    case_decide; [apply returns_bind; intros _; by apply IH|].
    apply returns_bind. intros [records|e]; [|apply returns_fail].
    apply IH; [done|]. apply Forall_app. split; [done|].
    repeat constructor; simpl; try done.
    unfold namesOfA. apply list_elem_of_fmap_2, list_elem_of_filter.
    split; [by destruct (decide (RecordType ep = RecordTypeA))|set_solver].
Qed.

Lemma deleteLoop_queue fuel p delete m ps :
  Forall (λ dp, del_ZoneID dp ≠ "") ps →
  returns (λ r, Forall (λ dp, del_ZoneID dp ≠ "") (snd r)) (deleteLoop fuel p delete m ps).
Proof.
  revert m ps. induction delete as [|ep delete IH]; intros m ps Hps; simpl.
  - by apply returns_ret.
  - case_decide as HA; [by apply IH|].
    apply returns_bind. intros zoneID.
    case_decide; [apply returns_bind; intros _; by apply IH|].
    apply returns_bind. intros [records|e]; [|apply returns_fail].
    apply IH. apply Forall_app. split; [done|]. by repeat constructor.
Qed.

(** X9: every DNS record [ApplyChanges] queues for creation or update is a
    proxied CNAME to [<tunnelId>.cfargotunnel.com] with TTL 1, named after an
    A endpoint of [Create] (of [UpdateNew]), and nothing is queued, for
    deletion either, in a zone that was not resolved. *)
Theorem queued_records_point_to_the_tunnel fuel p changes st st1 prepared :
  prepare fuel p changes st = (st1, Ret prepared) →
  Forall (goodCreate p (Create changes)) (dnsCreateParams prepared)
  ∧ Forall (goodUpdate p (UpdateNew changes)) (dnsUpdateParams prepared)
  ∧ Forall (λ dp, del_ZoneID dp ≠ "") (dnsDeleteParams prepared).
Proof.
  unfold prepare. unfold bind at 1.
  destruct (updateZoneIdMapper p st) as [st0 [[e|]| | |]]; try done.
  unfold bind at 1.
  destruct (invoke _ _ st0) as [st2 [[res|e]| | |]]; try done.
  destruct (loadIngress _ _ _) as [m c]. intros Hrun.
  set (Q := λ pre : Prepared,
         Forall (goodCreate p (Create changes)) (dnsCreateParams pre)
         ∧ Forall (goodUpdate p (UpdateNew changes)) (dnsUpdateParams pre)
         ∧ Forall (λ dp, del_ZoneID dp ≠ "") (dnsDeleteParams pre)).
  match type of Hrun with
  | ?body ?s = _ => assert (returns Q body) as Hret; [|exact (Hret _ _ _ Hrun)]
  end.
  eapply returns_bind_post; [by apply (createLoop_queue p (Create changes))|].
  intros [m1 cs] Hcs.
  eapply returns_bind_post; [by apply (updateLoop_queue fuel p (UpdateNew changes))|].
  intros [m2 us] Hus.
  eapply returns_bind_post; [by apply deleteLoop_queue|].
  intros [m3 ds] Hds.
  by apply returns_ret.
Qed.


(** *** The hostnames of the new ingress list *)

Lemma wf_loadIngress ingress m c : wf m → wf (fst (loadIngress ingress m c)).
Proof.
  revert m. induction ingress as [|v ingress IH]; intros m Hwf; simpl; [done|].
  case_decide; [done|]. by apply IH, wf_Add.
Qed.

Lemma keys_call c n k :
  wf n →
  k ∈ keys (call c n)
  ↔ match c with
    | CallAdd s | CallUpdate s => k = Hostname s ∨ k ∈ keys n
    | CallRemove s => k ∈ keys n ∧ k ≠ Hostname s
    end.
Proof.
  intros Hwf. pose proof Hwf as [Hnd Hdom Hhost]. destruct c as [s|s|s]; simpl.
  - rewrite keys_Add by done.
    rewrite elem_of_app, list_elem_of_filter, list_elem_of_singleton.
    destruct (decide (k = Hostname s)); naive_solver.
  - unfold Update. destruct (data n !! Hostname s) as [v|] eqn:E; simpl.
    + split; [auto|]. intros [->|?]; [|done]. apply Hdom. by eexists.
    + rewrite elem_of_app, list_elem_of_singleton. naive_solver.
  - unfold Remove. destruct (data n !! Hostname s) as [v|] eqn:E; simpl.
    + rewrite removeKey_filter by done. rewrite list_elem_of_filter. naive_solver.
    + split; [|naive_solver]. intros Hk. split; [done|]. intros ->.
      apply Hdom in Hk. rewrite E in Hk. by destruct Hk.
Qed.

Lemma calls_snoc cs c n : calls (cs ++ [c]) n = call c (calls cs n).
Proof. unfold calls. by rewrite foldl_app. Qed.

Lemma keys_adds (es : list Endpoint) n k :
  wf n →
  k ∈ keys (calls ((λ e, CallAdd (desiredRule e)) <$> es) n)
  ↔ k ∈ keys n ∨ k ∈ DNSName <$> es.
Proof.
  intros Hwf. induction es as [|e es IH] using rev_ind.
  - simpl. rewrite elem_of_nil. naive_solver.
  - rewrite !fmap_app, !list_fmap_singleton, calls_snoc, keys_call
      by apply wf_calls, Hwf.
    simpl. rewrite IH, elem_of_app, list_elem_of_singleton. naive_solver.
Qed.

Lemma keys_updates (es : list Endpoint) n k :
  wf n →
  k ∈ keys (calls ((λ e, CallUpdate (desiredRule e)) <$> es) n)
  ↔ k ∈ keys n ∨ k ∈ DNSName <$> es.
Proof.
  intros Hwf. induction es as [|e es IH] using rev_ind.
  - simpl. rewrite elem_of_nil. naive_solver.
  - rewrite !fmap_app, !list_fmap_singleton, calls_snoc, keys_call
      by apply wf_calls, Hwf.
    simpl. rewrite IH, elem_of_app, list_elem_of_singleton. naive_solver.
Qed.

Lemma keys_removes (es : list Endpoint) n k :
  wf n →
  k ∈ keys (calls ((λ e, CallRemove (removedRule e)) <$> es) n)
  ↔ k ∈ keys n ∧ k ∉ DNSName <$> es.
Proof.
  intros Hwf. induction es as [|e es IH] using rev_ind.
  - simpl. rewrite elem_of_nil. naive_solver.
  - rewrite !fmap_app, !list_fmap_singleton, calls_snoc, keys_call
      by apply wf_calls, Hwf.
    simpl. rewrite IH, elem_of_app, list_elem_of_singleton. naive_solver.
Qed.

(** X10: in the new ingress list no hostname occurs twice before the last
    entry, which is the catch-all. The hostnames before it are those loaded
    from the old configuration and those of the A endpoints of [Create] and
    [UpdateNew], without those of the A endpoints of [Delete]: a deleted
    name is never sent, even when the same changes create it. *)
Theorem new_ingress_hostnames fuel p changes st st1 prepared :
  prepare fuel p changes st = (st1, Ret prepared) →
  let old := Ingress (res_Config (oldConfigResult prepared)) in
  let loaded := fst (loadIngress old (NewOrderedMap (Z.of_nat (length old))) zeroRule) in
  let sent := Ingress (par_Config (tunnelConfigParam prepared)) in
  let hosts := Hostname <$> Get (ingressConfigs prepared) in
  sent = Get (ingressConfigs prepared) ++ [catchAll prepared]
  ∧ last sent = Some (catchAll prepared)
  ∧ NoDup hosts
  ∧ (∀ k, k ∈ hosts
          ↔ (k ∈ keys loaded ∨ k ∈ namesOfA (Create changes)
             ∨ k ∈ namesOfA (UpdateNew changes))
            ∧ k ∉ namesOfA (Delete changes)).
Proof.
  intros Hpre old loaded sent hosts.
  destruct (prepare_inv _ _ _ _ _ _ Hpre) as (_ & Hm & _ & Hp).
  fold old in Hm. fold loaded in Hm.
  assert (wf loaded) as Hwl by apply wf_loadIngress, wf_New.
  assert (wf (ingressConfigs prepared)) as Hwf by (rewrite Hm; by apply wf_calls).
  assert (sent = Get (ingressConfigs prepared) ++ [catchAll prepared]) as Hsent
    by (unfold sent; by rewrite Hp).
  split_and!; [done|by rewrite Hsent, last_snoc| |].
  - unfold hosts. rewrite Get_hostnames by done. apply Hwf.
  - intros k. unfold hosts. rewrite Get_hostnames by done.
    rewrite Hm. unfold ingressCalls, namesOfA. rewrite !calls_app.
    rewrite keys_removes by (apply wf_calls; apply wf_calls; exact Hwl).
    rewrite keys_updates by (apply wf_calls; exact Hwl).
    rewrite keys_adds by done. naive_solver.
Qed.

(** *** Listing zones and records *)



Lemma listDNSRecordsPages_spec fuel p zoneID records params st :
  ∃ new,
    events (fst (listDNSRecordsPages fuel p zoneID records params st)) = events st ++ new
    ∧ Forall (listsZone zoneID) new
    ∧ (length new ≤ fuel)%nat
    ∧ match snd (listDNSRecordsPages fuel p zoneID records params st) with
      | Ret (ok all) =>
          Forall succeeded new ∧ new ≠ [] ∧ ∃ more, all = records ++ more
      | Ret (err e) =>
          ∃ before params', new = before ++ [Called (ReqListDNSRecords zoneID params') (Some e)]
                            ∧ Forall succeeded before
      | OutOfFuel => Forall succeeded new ∧ length new = fuel
      | Fail _ | Panic => False
      end.
Proof.
  revert records params st.
  induction fuel as [|fuel IH]; intros records params st; simpl.
  - exists []. by rewrite app_nil_r.
  - destruct (ListDNSRecords (Client p) zoneID params (world st))
      as [w [[pageRecords resultInfo]|e]] eqn:Hl.
    + erewrite bind_Ret by (by apply invoke_run). cbv beta iota zeta.
      destruct (Done (Next resultInfo)).
      * eexists [_]. simpl. split; [done|]. split; [|split; [lia|]].
        -- repeat constructor. by eexists _, _.
        -- split; [by repeat constructor|]. split; [done|by eexists].
      * match goal with |- context [listDNSRecordsPages fuel p zoneID ?r ?q ?s] =>
          destruct (IH r q s) as (new & Hev & Hall & Hlen & Hout)
        end.
        eexists (_ :: new). split; [|split; [|split]].
        -- rewrite Hev. simpl. by rewrite <- app_assoc.
        -- constructor; [by eexists _, _|done].
        -- simpl. lia.
        -- destruct (snd (listDNSRecordsPages _ _ _ _ _ _)) as [[all|e]|e| |].
           ++ destruct Hout as (Hs & _ & more & ->).
              split; [by constructor|]. split; [done|].
              exists (pageRecords ++ more). by rewrite app_assoc.
           ++ destruct Hout as (before & params' & -> & Hs).
              eexists (_ :: before), params'. split; [done|]. by constructor.
           ++ done.
           ++ done.
           ++ destruct Hout as [Hs Hl']. split; [by constructor|]. simpl. lia.
    + erewrite bind_Ret by (by apply invoke_run). cbv beta iota. simpl.
      eexists [_]. split; [done|]. split; [|split; [simpl; lia|]].
      * repeat constructor. by eexists _, _.
      * by exists [], params.
Qed.

(** X12: [listDNSRecordsWithAutoPagination] only calls [ListDNSRecords],
    for the zone asked, starting at page 1 with the provider's page size.
    It never fails in another way than by returning the vendor's error: the
    failed call is then its last one, after successful ones. A list of
    records is returned only after at least one call, all of them
    successful. *)
Theorem listDNSRecords_stops_at_first_error fuel p zoneID st :
  ∃ new,
    events (fst (listDNSRecordsWithAutoPagination fuel p zoneID st)) = events st ++ new
    ∧ Forall (listsZone zoneID) new
    ∧ (length new ≤ fuel)%nat
    ∧ (∀ ev, head new = Some ev →
         ∃ o, ev = Called (ReqListDNSRecords zoneID
                             (mkResultInfo 1 (DNSRecordsPerPage p) 0 0 0)) o)
    ∧ match snd (listDNSRecordsWithAutoPagination fuel p zoneID st) with
      | Ret (ok all) => Forall succeeded new ∧ new ≠ []
      | Ret (err e) =>
          ∃ before params', new = before ++ [Called (ReqListDNSRecords zoneID params') (Some e)]
                            ∧ Forall succeeded before
      | OutOfFuel => Forall succeeded new ∧ length new = fuel
      | Fail _ | Panic => False
      end.
Proof.
  unfold listDNSRecordsWithAutoPagination.
  destruct (listDNSRecordsPages_spec fuel p zoneID [] (mkResultInfo 1 (DNSRecordsPerPage p) 0 0 0) st)
    as (new & Hev & Hall & Hlen & Hout).
  exists new. split_and!; [done..| |].
  - intros ev Hhead. destruct fuel as [|fuel]; simpl in Hev.
    + rewrite <- (app_nil_r (events st)) in Hev at 1.
      apply app_inv_head in Hev. subst new. done.
    + unfold bind, invoke in Hev.
      destruct (ListDNSRecords _ _ _ _) as [w [[pageRecords resultInfo]|e]]; simpl in Hev.
      * destruct (Done _); simpl in Hev.
        -- apply app_inv_head in Hev. subst new. injection Hhead as <-. by eexists.
        -- match type of Hev with context [listDNSRecordsPages fuel p zoneID ?r ?q ?s] =>
             destruct (listDNSRecordsPages_spec fuel p zoneID r q s) as (new' & Hev' & _)
           end.
           rewrite Hev' in Hev. simpl in Hev. rewrite <- app_assoc in Hev.
           apply app_inv_head in Hev. subst new. injection Hhead as <-. by eexists.
      * apply app_inv_head in Hev. subst new. injection Hhead as <-. by eexists.
  - destruct (snd _) as [[all|e]|e| |]; try done. naive_solver.
Qed.


(** X20: [NewCloudFlareTunnelProvider] needs [CF_ACCOUNT_ID] and
    [CF_TUNNEL_ID] to be set and complains about the account id first. The
    provider takes its ids from them and its zone mapping starts empty; its
    page size is 0 whatever [dnsRecordsPerPage] is given, so its record
    listings start at page 1 with a page size of 0. *)
Theorem NewCloudFlareTunnelProvider_ignores_the_page_size
    (env : gmap string string) client domainFilter zoneIDFilter dryRun dnsRecordsPerPage :
  (env !! "CF_ACCOUNT_ID" = None →
     NewCloudFlareTunnelProvider (W:=W) env client domainFilter zoneIDFilter dryRun
       dnsRecordsPerPage
     = err "failed to get cloudflare account id: please set env, CF_ACCOUNT_ID")
  ∧ (is_Some (env !! "CF_ACCOUNT_ID") → env !! "CF_TUNNEL_ID" = None →
     NewCloudFlareTunnelProvider (W:=W) env client domainFilter zoneIDFilter dryRun
       dnsRecordsPerPage
     = err "failed to get cloudflare tunnel id: please set env, CF_TUNNEL_ID")
  ∧ (∀ account tunnel,
       env !! "CF_ACCOUNT_ID" = Some account → env !! "CF_TUNNEL_ID" = Some tunnel →
       ∃ p,
         NewCloudFlareTunnelProvider env client domainFilter zoneIDFilter dryRun
           dnsRecordsPerPage = ok (p, ZoneIDName_empty)
         ∧ accountId p = account ∧ tunnelId p = tunnel ∧ DryRun p = dryRun
         ∧ DNSRecordsPerPage p = 0
         ∧ ∀ fuel zoneID st ev,
             head (drop (length (events st))
                     (events (fst (listDNSRecordsWithAutoPagination (S fuel) p zoneID st))))
               = Some ev →
             ∃ o, ev = Called (ReqListDNSRecords zoneID (mkResultInfo 1 0 0 0 0)) o).
Proof.
  unfold NewCloudFlareTunnelProvider. split_and!.
  - by intros ->.
  - by intros [account ->] ->.
  - intros account tunnel -> ->. eexists. split; [done|]. simpl. split_and!; try done.
    intros fuel zoneID st ev. unfold listDNSRecordsWithAutoPagination. simpl.
    unfold bind, invoke. simpl.
    match goal with |- context [cloudflaretunnel.ListDNSRecords ?c ?z ?q ?w] =>
      destruct (cloudflaretunnel.ListDNSRecords c z q w) as [w' [[pageRecords resultInfo]|e]]
    end; simpl.
    + destruct (Done _); simpl.
      * rewrite drop_app_length. intros [= <-]. by eexists.
      * match goal with |- context [listDNSRecordsPages fuel ?p' zoneID ?r ?q ?s] =>
          destruct (listDNSRecordsPages_spec fuel p' zoneID r q s) as (new & Hev & _)
        end.
        rewrite Hev. simpl. rewrite <- app_assoc, drop_app_length.
        intros [= <-]. by eexists.
    + rewrite drop_app_length. intros [= <-]. by eexists.
Qed.

End CloudflareMore.

Section OciMore.
Import exec oci ocifacts.
Context {W : Type} `{ProviderPkg} `{EndpointPkg} `{DnsSDK} `{MapIteration}.
Context (clock : W → Z).
Implicit Types (p : OCIProvider W) (st : State W).
Local Open Scope exec_scope.

Local Abbreviation emitsOCI := (emits (oci.events (W:=W))).

(** [ApplyChanges], with the building of the operations set apart. *)
Lemma ApplyChanges_unfold fuel p changes st :
  ApplyChanges clock fuel p changes st
  = match changeOperations p changes with
    | None => (st, Panic)
    | Some ops =>
        if decide (length ops = 0%nat) then (st, Ret tt)
        else
          match zones clock fuel p st with
          | (st1, Ret (ok zs)) =>
              if dryRun p then (st1, Ret tt)
              else patchZones p (rangeOrder 2%nat (operationsByZone zs ops)) st1
          | (st1, Ret (err e)) => (st1, Fail ("fetching zones: " +:+ e))
          | (st1, Fail e) => (st1, Fail e)
          | (st1, Panic) => (st1, Panic)
          | (st1, OutOfFuel) => (st1, OutOfFuel)
          end
    end.
Proof.
  unfold ApplyChanges, changeOperations.
  destruct (newFilteredRecordOperations p (Create changes) _) as [created|]; [|done].
  destruct (newFilteredRecordOperations p (UpdateNew changes) _) as [updatedNew|]; [|done].
  destruct (newFilteredRecordOperations p (UpdateOld changes) _) as [updatedOld|]; [|done].
  destruct (newFilteredRecordOperations p (Delete changes) _) as [deleted|]; [|done].
  simpl. unfold bind at 1 2 3 4. simpl.
  case_decide; [done|]. unfold bind.
  destruct (zones clock fuel p st) as [st1 [[zs|e]|e| |]]; try done.
  by destruct (dryRun p).
Qed.

Lemma newFilteredRecordOperations_panics p endpoints opType acc :
  Exists (bareCNAME p) endpoints →
  newFilteredRecordOperationsFrom p endpoints opType acc = None.
Proof.
  intros Hex. revert acc.
  induction endpoints as [|ep endpoints IH]; intros acc; [by inversion Hex|].
  simpl. apply Exists_cons in Hex as [(Hm & HC & HT)|Hex].
  - rewrite Hm. unfold newRecordOperation. by rewrite decide_True, HT.
  - destruct (domainFilter p (DNSName ep)); [|by apply IH].
    destruct (newRecordOperation ep opType); [by apply IH|done].
Qed.

(** X13: a CNAME endpoint without target that passes the domain filter,
    in any of the four lists, makes [ApplyChanges] panic at [targets[0]]
    before it has made any vendor call or touched the cache. *)
Theorem ApplyChanges_panics_on_bare_CNAME fuel p changes st :
  Exists (bareCNAME p) (allEndpoints changes) →
  ApplyChanges clock fuel p changes st = (st, Panic).
Proof.
  unfold allEndpoints. rewrite !Exists_app. intros Hex.
  rewrite ApplyChanges_unfold.
  unfold changeOperations, newFilteredRecordOperations.
  destruct Hex as [Hex|[Hex|[Hex|Hex]]].
  - rewrite (newFilteredRecordOperations_panics _ (Create changes)) by done. done.
  - rewrite (newFilteredRecordOperations_panics _ (UpdateNew changes)) by done.
    by destruct (newFilteredRecordOperationsFrom p (Create changes) _ _).
  - rewrite (newFilteredRecordOperations_panics _ (UpdateOld changes)) by done.
    destruct (newFilteredRecordOperationsFrom p (Create changes) _ _); [|done].
    by destruct (newFilteredRecordOperationsFrom p (UpdateNew changes) _ _).
  - rewrite (newFilteredRecordOperations_panics _ (Delete changes)) by done.
    destruct (newFilteredRecordOperationsFrom p (Create changes) _ _); [|done].
    destruct (newFilteredRecordOperationsFrom p (UpdateNew changes) _ _); [|done].
    by destruct (newFilteredRecordOperationsFrom p (UpdateOld changes) _ _).
Qed.

(** X14: with [dryRun] set, [ApplyChanges] never calls [PatchZoneRecords],
    whatever the changes; it still lists the zones when operations result. *)
Theorem ApplyChanges_dry_run_patches_nothing fuel p changes st :
  dryRun p = true →
  ∃ new,
    events (fst (ApplyChanges clock fuel p changes st)) = events st ++ new
    ∧ Forall (λ ev, isPatch ev = false) new
    ∧ snd (ApplyChanges clock fuel p changes st)
      = match changeOperations p changes with
        | None => Panic
        | Some ops =>
            if decide (length ops = 0%nat) then Ret tt
            else match snd (zones clock fuel p st) with
                 | Ret (ok _) => Ret tt
                 | Ret (err e) => Fail ("fetching zones: " +:+ e)
                 | Fail e => Fail e
                 | Panic => Panic
                 | OutOfFuel => OutOfFuel
                 end
        end.
Proof.
  intros Hdry. rewrite ApplyChanges_unfold, Hdry.
  destruct (changeOperations p changes) as [ops|];
    [|exists []; by rewrite app_nil_r].
  case_decide; [exists []; by rewrite app_nil_r|].
  destruct (zones_emits clock fuel p st) as (new & Hev & Hnew).
  exists new.
  by destruct (zones clock fuel p st) as [st1 [[zs|e]|e| |]].
Qed.


(** *** Listing the zones *)

Lemma addZones_admitted p items zones :
  admitted p zones → admitted p (addZones p items zones).
Proof.
  unfold addZones. revert zones.
  induction items as [|zone items IH]; intros zones Hz; simpl; [done|].
  apply IH. destruct (domainFilter p (Name zone)) eqn:Hd; [|done].
  destruct (zoneIDFilter p (Id zone)) eqn:Hi; [|done]. simpl.
  intros id z. rewrite lookup_insert. case_decide as Hk.
  - intros [= <-]. by subst.
  - apply Hz.
Qed.

Lemma addPaginatedZones_spec fuel p zones scope page st :
  admitted p zones →
  ∃ new,
    events (fst (addPaginatedZones fuel p zones scope page st)) = events st ++ new
    ∧ cache (fst (addPaginatedZones fuel p zones scope page st)) = cache st
    ∧ Forall (listsCompartment p) new
    ∧ match snd (addPaginatedZones fuel p zones scope page st) with
      | Ret (ok zs) => admitted p zs ∧ Forall wentWell new
      | Ret (err msg) =>
          ∃ before request e,
            new = before ++ [Called (ReqListZones request) (Some e)]
            ∧ Forall wentWell before
            ∧ msg = "listing zones in " +:+ CompartmentID p +:+ ": " +:+ e
      | OutOfFuel => Forall wentWell new
      | Fail _ | Panic => False
      end.
Proof.
  revert zones page st.
  induction fuel as [|fuel IH]; intros zones page st Hz; simpl.
  - exists []. by rewrite app_nil_r.
  - unfold bind, invoke.
    destruct (ListZones (client p) _ (world st)) as [w [resp|e]] eqn:Hl; simpl.
    + destruct (OpcNextPage resp) as [next|]; simpl.
      * match goal with |- context [addPaginatedZones fuel p ?z scope ?q ?s] =>
          destruct (IH z q s) as (new & Hev & Hc & Hall & Hout);
            [by apply addZones_admitted|]
        end.
        eexists (_ :: new). split; [|split; [|split]].
        -- rewrite Hev. simpl. by rewrite <- app_assoc.
        -- by rewrite Hc.
        -- constructor; [by eexists _, _, _|done].
        -- destruct (snd (addPaginatedZones _ _ _ _ _ _)) as [[zs|msg]|msg| |];
             try done.
           ++ destruct Hout. split; [done|]. by constructor.
           ++ destruct Hout as (before & request & e & -> & Hb & ->).
              eexists (_ :: before), request, e. split; [done|]. split; [|done].
              by constructor.
           ++ by constructor.
      * eexists [_]. split; [done|]. split; [done|]. split.
        -- repeat constructor. by eexists _, _, _.
        -- split; [by apply addZones_admitted|by repeat constructor].
    + eexists [_]. split; [done|]. split; [done|]. split.
      * repeat constructor. by eexists _, _, _.
      * by eexists [], _, e.
Qed.

Lemma zonesScopes_spec fuel p scopes zones st :
  admitted p zones →
  ∃ new,
    events (fst (zonesScopes fuel p scopes zones st)) = events st ++ new
    ∧ cache (fst (zonesScopes fuel p scopes zones st)) = cache st
    ∧ Forall (listsCompartment p) new
    ∧ match snd (zonesScopes fuel p scopes zones st) with
      | Ret (ok zs) => admitted p zs ∧ Forall wentWell new
      | Ret (err msg) =>
          ∃ before request e,
            new = before ++ [Called (ReqListZones request) (Some e)]
            ∧ Forall wentWell before
            ∧ msg = "listing zones in " +:+ CompartmentID p +:+ ": " +:+ e
      | OutOfFuel => Forall wentWell new
      | Fail _ | Panic => False
      end.
Proof.
  revert zones st. induction scopes as [|scope scopes IH]; intros zones st Hz; simpl.
  - exists []. by rewrite app_nil_r.
  - destruct (addPaginatedZones_spec fuel p zones scope None st Hz)
      as (new1 & Hev1 & Hc1 & Hall1 & Hout1).
    unfold bind.
    destruct (addPaginatedZones fuel p zones scope None st) as [st1 [[zs|msg]|msg| |]];
      simpl in *; try done.
    + destruct Hout1 as [Hzs Hw1].
      destruct (IH zs st1 Hzs) as (new2 & Hev2 & Hc2 & Hall2 & Hout2).
      exists (new1 ++ new2). split; [|split; [|split]].
      * by rewrite Hev2, Hev1, app_assoc.
      * by rewrite Hc2.
      * by apply Forall_app.
      * destruct (snd (zonesScopes fuel p scopes zs st1)) as [[zs'|msg]|msg| |];
          try done.
        -- destruct Hout2. split; [done|]. by apply Forall_app.
        -- destruct Hout2 as (before & request & e & -> & Hb & ->).
           exists (new1 ++ before), request, e. rewrite app_assoc.
           split; [done|]. split; [by apply Forall_app|done].
        -- by apply Forall_app.
    + by exists new1.
    + by exists new1.
Qed.

(** X15: when the cache says it is expired, [zones] lists the zones of the
    provider's compartment and nothing else. It returns only zones that pass
    the domain filter and the zone-id filter, each under its own id, and
    then resets the cache with them; when a listing call fails it is the
    last call, the error comes back with the compartment in front, and the
    cache is left as it was. *)
Theorem zones_lists_and_filters fuel p st :
  Expired (clock (world st)) (cache st) = true →
  ∃ new,
    events (fst (zones clock fuel p st)) = events st ++ new
    ∧ Forall (listsCompartment p) new
    ∧ match snd (zones clock fuel p st) with
      | Ret (ok zs) =>
          admitted p zs ∧ Forall wentWell new
          ∧ cache (fst (zones clock fuel p st))
            = Reset (clock (world (fst (zones clock fuel p st)))) zs (cache st)
      | Ret (err msg) =>
          (∃ before request e,
             new = before ++ [Called (ReqListZones request) (Some e)]
             ∧ Forall wentWell before
             ∧ msg = "listing zones in " +:+ CompartmentID p +:+ ": " +:+ e)
          ∧ cache (fst (zones clock fuel p st)) = cache st
      | OutOfFuel =>
          Forall wentWell new ∧ cache (fst (zones clock fuel p st)) = cache st
      | Fail _ | Panic => False
      end.
Proof.
  intros Hexp. unfold zones, bind, gets. simpl. rewrite Hexp. simpl.
  match goal with |- context [zonesScopes fuel p ?l ∅ st] =>
    destruct (zonesScopes_spec fuel p l ∅ st) as (new & Hev & Hc & Hall & Hout);
      [by intros id zone; rewrite lookup_empty|];
    destruct (zonesScopes fuel p l ∅ st) as [st1 [[zs|msg]|msg| |]]
  end; simpl in *; try done; exists new; split_and!; try done.
  - apply Hout.
  - apply Hout.
  - by rewrite Hc.
Qed.

Lemma patchZones_patches p zs st :
  ∃ new,
    events (fst (patchZones p zs st)) = events st ++ new
    ∧ Forall (λ ev, isPatch ev = true) new
    ∧ cache (fst (patchZones p zs st)) = cache st.
Proof.
  revert st. induction zs as [|[zoneID ops] zs IH]; intros st; simpl.
  - exists []. by rewrite app_nil_r.
  - unfold bind, invoke.
    destruct (PatchZoneRecords _ _ _) as [w [[]|e]]; simpl.
    + match goal with |- context [patchZones p zs ?s] =>
        destruct (IH s) as (new & Hev & Hall & Hc)
      end.
      eexists (_ :: new). split_and!.
      * rewrite Hev. simpl. by rewrite <- app_assoc.
      * by constructor.
      * by rewrite Hc.
    + eexists [_]. split_and!; [done|by repeat constructor|done].
Qed.

Lemma ApplyChanges_fresh_events fuel p changes st :
  Expired (clock (world st)) (cache st) = false →
  ∃ new,
    events (fst (ApplyChanges clock fuel p changes st)) = events st ++ new
    ∧ Forall (λ ev, isPatch ev = true) new
    ∧ cache (fst (ApplyChanges clock fuel p changes st)) = cache st.
Proof.
  intros Hfresh.
  assert (zones clock fuel p st = (st, Ret (ok (cachedZones (cache st))))) as Hz.
  { unfold zones, bind, gets. simpl. by rewrite Hfresh. }
  rewrite ApplyChanges_unfold, Hz.
  destruct (changeOperations p changes) as [ops|];
    [|exists []; by rewrite app_nil_r].
  case_decide; [exists []; by rewrite app_nil_r|].
  destruct (dryRun p); [exists []; by rewrite app_nil_r|].
  apply patchZones_patches.
Qed.

(** X16: while the cache says it is not expired, [zones] answers from the
    cache, so the only vendor calls of [ApplyChanges] are patches, and the
    cache is left as it was. *)
Theorem ApplyChanges_with_fresh_cache fuel p changes st :
  Expired (clock (world st)) (cache st) = false →
  zones clock fuel p st = (st, Ret (ok (cachedZones (cache st))))
  ∧ ∃ new,
      events (fst (ApplyChanges clock fuel p changes st)) = events st ++ new
      ∧ Forall (λ ev, isPatch ev = true) new
      ∧ cache (fst (ApplyChanges clock fuel p changes st)) = cache st.
Proof.
  intros Hfresh.
  assert (zones clock fuel p st = (st, Ret (ok (cachedZones (cache st))))) as Hz.
  { unfold zones, bind, gets. simpl. by rewrite Hfresh. }
  split; [done|]. by apply ApplyChanges_fresh_events.
Qed.


(** *** The partition by zone *)

Lemma blank_batches (zs : list ZoneSummary) (acc : gmap string (list RecordOperation)) :
  (∀ k v, acc !! k = Some v → v = []) →
  ∀ k v, foldl (λ changes z, <[Id z := []]> changes) acc zs !! k = Some v → v = [].
Proof.
  revert acc. induction zs as [|z zs IH]; intros acc Hacc; simpl; [done|].
  apply IH. intros k v. rewrite lookup_insert. case_decide; [by intros [= <-]|apply Hacc].
Qed.

Lemma batches_step (zoneOf : RecordOperation → string) ops
    (acc : gmap string (list RecordOperation)) k :
  foldl (λ changes op,
           if decide (zoneOf op ≠ "") then
             <[zoneOf op := default [] (changes !! zoneOf op) ++ [op]]> changes
           else changes) acc ops !! k
  = if decide (k = "" ∨ filter (λ op, zoneOf op = k) ops = []) then acc !! k
    else Some (default [] (acc !! k) ++ filter (λ op, zoneOf op = k) ops).
Proof.
  revert acc. induction ops as [|op ops IH]; intros acc; simpl.
  - by rewrite decide_True by (by right).
  - rewrite IH. clear IH. destruct (decide (zoneOf op = k)) as [Hk|Hk].
    + rewrite (filter_cons_True _ op) by done.
      destruct (decide (k = "")) as [Hb|Hb].
      * rewrite (decide_True (P:=k = "" ∨ filter _ ops = [])) by (by left).
        rewrite (decide_True (P:=k = "" ∨ op :: _ = [])) by (by left).
        rewrite (decide_False (P:=zoneOf op ≠ "")) by (intros Hne; congruence).
        done.
      * rewrite (decide_False (P:=k = "" ∨ op :: _ = [])) by naive_solver.
        rewrite (decide_True (P:=zoneOf op ≠ "")) by congruence.
        rewrite Hk, lookup_insert_eq. simpl. case_decide as Hr.
        -- destruct Hr as [? | Hnil]; [done|by rewrite Hnil].
        -- by rewrite <- app_assoc.
    + rewrite (filter_cons_False _ op) by done.
      assert ((if decide (zoneOf op ≠ "")
               then <[zoneOf op := default [] (acc !! zoneOf op) ++ [op]]> acc
               else acc) !! k = acc !! k) as Hsame.
      { case_decide; [by rewrite lookup_insert_ne|done]. }
      by rewrite Hsame.
Qed.

(** X17: [operationsByZone] partitions the operations by the zone their
    domain resolves to: the batch of a zone holds exactly the operations
    that resolve to it, in their order; an operation that resolves to no zone
    (the empty id) is in no batch; and no batch is empty. *)
Theorem operationsByZone_partitions (zones : gmap string ZoneSummary)
    (ops : list RecordOperation) (zoneID : string) :
  let zs := snd <$> rangeOrder 0%nat zones in
  let zoneNameIDMapper :=
    foldl (λ m z, ZoneIDName_Add (Id z) (Name z) m) ZoneIDName_empty zs in
  let zoneOf := λ op, fst (FindZone zoneNameIDMapper (Domain op)) in
  let batch := filter (λ op, zoneOf op = zoneID) ops in
  operationsByZone zones ops !! zoneID
  = if decide (zoneID ≠ "" ∧ batch ≠ []) then Some batch else None.
Proof.
  intros zs zoneNameIDMapper zoneOf batch. unfold operationsByZone.
  fold zs. fold zoneNameIDMapper.
  pose proof (blank_batches zs ∅ (λ k v, ltac:(by rewrite lookup_empty)) zoneID)
    as Hblank.
  pose proof (batches_step zoneOf ops
                (foldl (λ changes z, <[Id z := []]> changes) ∅ zs) zoneID) as Hstep.
  fold batch in Hstep.
  apply option_eq. intros v. rewrite map_lookup_filter_Some. simpl.
  unfold zoneOf in Hstep. rewrite Hstep. clear Hstep.
  destruct (foldl (λ changes z, <[Id z := []]> changes) ∅ zs !! zoneID) as [v0|] eqn:E.
  - rewrite (Hblank v0 eq_refl). simpl.
    destruct (decide (zoneID = "")) as [Hb|Hb].
    + rewrite decide_True by (by left). rewrite decide_False by naive_solver.
      naive_solver.
    + destruct (decide (batch = [])) as [Hn|Hn].
      * rewrite decide_True by (by right). rewrite decide_False by naive_solver.
        naive_solver.
      * rewrite decide_False by naive_solver. rewrite decide_True by done.
        naive_solver.
  - simpl. destruct (decide (zoneID = "")) as [Hb|Hb].
    + rewrite decide_True by (by left). rewrite decide_False by naive_solver.
      naive_solver.
    + destruct (decide (batch = [])) as [Hn|Hn].
      * rewrite decide_True by (by right). rewrite decide_False by naive_solver.
        naive_solver.
      * rewrite decide_False by naive_solver. rewrite decide_True by done.
        naive_solver.
Qed.

(** X18: without [dryRun], a nil result of [ApplyChanges] means either that
    no operation resulted and nothing was called, or that the zones were
    obtained and every batch of the partition was patched once, successfully:
    the patch calls are the batches, each zone once. *)
Theorem ApplyChanges_nil_means_every_batch_patched fuel p changes st st' :
  dryRun p = false →
  ApplyChanges clock fuel p changes st = (st', Ret tt) →
  ∃ ops,
    changeOperations p changes = Some ops
    ∧ (ops = [] → st' = st)
    ∧ (ops ≠ [] →
       ∃ st1 zs lists,
         zones clock fuel p st = (st1, Ret (ok zs))
         ∧ events st1 = events st ++ lists
         ∧ Forall (λ ev, isPatch ev = false) lists
         ∧ events st'
           = events st1
             ++ ((λ z, patchOk (patchRequest p z))
                   <$> rangeOrder 2%nat (operationsByZone zs ops))
         ∧ rangeOrder 2%nat (operationsByZone zs ops)
           ≡ₚ map_to_list (operationsByZone zs ops)).
Proof.
  intros Hdry. rewrite ApplyChanges_unfold, Hdry.
  destruct (changeOperations p changes) as [ops|]; [|done].
  intros Hrun. exists ops. split; [done|].
  case_decide as Hlen.
  - injection Hrun as <-. split; [done|]. intros Hne. by destruct ops.
  - split; [intros ->; done|]. intros _.
    destruct (zones_emits clock fuel p st) as (lists & Hev & Hlists).
    destruct (zones clock fuel p st) as [st1 [[zs|e]|e| |]]; try done.
    simpl in Hev. exists st1, zs, lists. split_and!; [done..| |apply rangeOrder_perm].
    destruct (patchZones_spec p (rangeOrder 2%nat (operationsByZone zs ops)) st1)
      as (st'' & out & patched & Hrun' & Hcases).
    rewrite Hrun in Hrun'. injection Hrun' as <- <-.
    destruct Hcases as [(_ & -> & Hev')|(z & e & rest & [=] & _)]. done.
Qed.

(** X19: when a [ListZones] call fails during [ApplyChanges], it is the last
    call: no zone is patched, the cache is left as it was, and the result is
    the error with the compartment and "fetching zones" in front. *)
Theorem ApplyChanges_listing_failure_aborts fuel p changes st st' out before request e after :
  ApplyChanges clock fuel p changes st = (st', out) →
  events st' = events st ++ before ++ Called (ReqListZones request) (Some e) :: after →
  out = Fail ("fetching zones: listing zones in " +:+ CompartmentID p +:+ ": " +:+ e)
  ∧ after = []
  ∧ Forall (λ ev, isPatch ev = false) before
  ∧ cache st' = cache st.
Proof.
  intros Hrun0 Hev. pose proof Hrun0 as Hrun. rewrite ApplyChanges_unfold in Hrun.
  assert (∀ new, events st' = events st ++ new →
            ¬ Forall (λ ev, isPatch ev = true ∨ wentWell ev) new) as Hnot.
  { intros new Hnew Hall. rewrite Hnew in Hev. apply app_inv_head in Hev. subst new.
    apply Forall_app in Hall as [_ Hall]. inversion Hall as [|? ? [?|?]]; done. }
  destruct (changeOperations p changes) as [ops|];
    [|injection Hrun as <- <-; destruct (Hnot []); [by rewrite app_nil_r|done]].
  case_decide;
    [injection Hrun as <- <-; destruct (Hnot []); [by rewrite app_nil_r|done]|].
  destruct (Expired (clock (world st)) (cache st)) eqn:Hexp.
  - destruct (zones_lists_and_filters fuel p st Hexp) as (new & Hev1 & Hlist & Hout).
    destruct (zones clock fuel p st) as [st1 [[zs|msg]|msg| |]]; simpl in *; try done.
    + destruct Hout as (_ & Hw & _).
      destruct (patchZones_patches p (rangeOrder 2%nat (operationsByZone zs ops)) st1)
        as (new2 & Hev2 & Hp2 & _).
      destruct (dryRun p).
      * injection Hrun as <- <-. destruct (Hnot new Hev1).
        eapply Forall_impl; [exact Hw|]. auto.
      * rewrite Hrun in Hev2. simpl in Hev2. destruct (Hnot (new ++ new2)).
        { by rewrite Hev2, Hev1, app_assoc. }
        apply Forall_app. split; eapply Forall_impl; eauto; simpl; auto.
    + injection Hrun as <- <-.
      destruct Hout as [(before' & request' & e' & -> & Hb & ->) Hc].
      rewrite Hev1 in Hev. apply app_inv_head in Hev. symmetry in Hev.
      apply snoc_unique in Hev as (-> & [= -> ->] & ->).
      * split_and!; [done|done| |done].
        apply Forall_app in Hlist as [Hlist _].
        eapply Forall_impl; [exact Hlist|]. by intros ? (? & ? & ? & ->).
      * intros Hin. eapply Forall_forall in Hb; [|exact Hin]. done.
    + injection Hrun as <- <-. destruct Hout as [Hw _]. destruct (Hnot new Hev1).
      eapply Forall_impl; [exact Hw|]. auto.
  - destruct (ApplyChanges_fresh_events fuel p changes st Hexp)
      as (new & Hev1 & Hp & _).
    rewrite Hrun0 in Hev1. simpl in Hev1. destruct (Hnot new Hev1).
    eapply Forall_impl; [exact Hp|]. auto.
Qed.



End OciMore.

(** * Inputs that meet the hypotheses of the further properties *)
Section MoreExamples.
Import cloudflare cloudflaresdk util exec standin scripted tunnelfacts ocifacts.

Lemma Remove_absent_noop_present_removed_witness :
  let n := calls [CallAdd ruleApp; CallAdd ruleOld] (NewOrderedMap 2) in
  Remove ruleCatchAll n = n
  ∧ Len (Remove ruleApp n) = Len n - 1.
Proof.
  intros n.
  destruct (Remove_absent_noop_present_removed 2 [CallAdd ruleApp; CallAdd ruleOld]
              ruleCatchAll) as (Habsent & _).
  destruct (Remove_absent_noop_present_removed 2 [CallAdd ruleApp; CallAdd ruleOld]
              ruleApp) as (_ & Hpresent & _).
  split.
  - apply Habsent. by vm_compute.
  - apply Hpresent. vm_compute. by eexists.
Defined.

Lemma Remove_after_Add_of_fresh_key_witness :
  let n := calls [CallAdd ruleApp] (NewOrderedMap 1) in
  Remove ruleOld (Add ruleOld n) = n.
Proof.
  intros n.
  apply (Remove_after_Add_of_fresh_key 1 [CallAdd ruleApp] ruleOld).
  by vm_compute.
Defined.

Lemma getRecordID_first_match_witness :
  cloudflaretunnel.getRecordID someRecords
    (mkDNSRecord "" "app.example.com" "CNAME" "" "")
  = "rec-2"
  ∧ cloudflaretunnel.getRecordID someRecords
      (mkDNSRecord "" "gone.example.com" "CNAME" "" "")
    = "".
Proof.
  split.
  - apply (proj1 (proj2 (getRecordID_first_match someRecords
                           (mkDNSRecord "" "app.example.com" "CNAME" "" "")))
             [mkDNSRecord "rec-1" "app.example.com" "A" "192.0.2.1" "zone-1"]
             (mkDNSRecord "rec-2" "app.example.com" "CNAME" "t.cfargotunnel.com" "zone-1")
             [mkDNSRecord "rec-3" "app.example.com" "CNAME" "u.cfargotunnel.com" "zone-1"]).
    + reflexivity.
    + repeat constructor. by intros [_ [=]].
    + by split.
  - apply (proj1 (getRecordID_first_match someRecords
                    (mkDNSRecord "" "gone.example.com" "CNAME" "" ""))).
    repeat constructor; by intros [[=] _].
Defined.

Lemma queued_records_point_to_the_tunnel_witness :
  ∃ st1 prepared,
    cloudflaretunnel.prepare 3 (cfProvider [ruleApp; ruleOld; ruleCatchAll] [] false)
      (mkChanges [epNew] [] [epApp] [epOld]) cfStart = (st1, Ret prepared)
    ∧ Forall (λ dp, cloudflaretunnel.del_ZoneID dp ≠ "")
        (cloudflaretunnel.dnsDeleteParams prepared).
Proof.
  assert (∃ st1 prepared,
            cloudflaretunnel.prepare 3 (cfProvider [ruleApp; ruleOld; ruleCatchAll] [] false)
              (mkChanges [epNew] [] [epApp] [epOld]) cfStart = (st1, Ret prepared))
    as (st1 & prepared & Hpre) by (eexists _, _; vm_compute; reflexivity).
  exists st1, prepared. split; [exact Hpre|].
  destruct (queued_records_point_to_the_tunnel _ _ _ _ _ _ Hpre) as (_ & _ & Hd).
  exact Hd.
Defined.

Lemma new_ingress_hostnames_witness :
  ∃ st1 prepared,
    cloudflaretunnel.prepare 3 (cfProvider [ruleApp; ruleOld; ruleCatchAll] [] false)
      (mkChanges [epNew; epOld] [] [epApp] [epOld]) cfStart = (st1, Ret prepared)
    ∧ NoDup (Hostname <$> Get (cloudflaretunnel.ingressConfigs prepared)).
Proof.
  assert (∃ st1 prepared,
            cloudflaretunnel.prepare 3 (cfProvider [ruleApp; ruleOld; ruleCatchAll] [] false)
              (mkChanges [epNew; epOld] [] [epApp] [epOld]) cfStart = (st1, Ret prepared))
    as (st1 & prepared & Hpre) by (eexists _, _; vm_compute; reflexivity).
  exists st1, prepared. split; [exact Hpre|].
  destruct (new_ingress_hostnames _ _ _ _ _ _ Hpre) as (_ & _ & Hnd & _).
  exact Hnd.
Defined.


Lemma ApplyChanges_panics_on_bare_CNAME_witness :
  oci.ApplyChanges ociClock 3 (ociProvider [] false)
    (mkChanges [epCom] [] [epBareCname] []) ociStart
  = (ociStart, Panic).
Proof.
  apply (ApplyChanges_panics_on_bare_CNAME ociClock 3 (ociProvider [] false)
           (mkChanges [epCom] [] [epBareCname] []) ociStart).
  unfold oci.allEndpoints. simpl. right. left. by repeat split.
Defined.

Lemma ApplyChanges_dry_run_patches_nothing_witness :
  ∃ new,
    oci.events (fst (oci.ApplyChanges ociClock 3 (ociProvider [] true)
                       (mkChanges [epCom] [] [] []) ociStart))
    = oci.events ociStart ++ new
    ∧ Forall (λ ev, oci.isPatch ev = false) new.
Proof.
  destruct (ApplyChanges_dry_run_patches_nothing ociClock 3 (ociProvider [] true)
              (mkChanges [epCom] [] [] []) ociStart eq_refl) as (new & Hev & Hq & _).
  by exists new.
Defined.

Lemma zones_lists_and_filters_witness :
  ∃ new,
    oci.events (fst (oci.zones ociClock 3 (ociProvider [] false) ociStart))
    = oci.events ociStart ++ new
    ∧ Forall (listsCompartment (ociProvider [] false)) new.
Proof.
  destruct (zones_lists_and_filters ociClock 3 (ociProvider [] false) ociStart eq_refl)
    as (new & Hev & Hl & _).
  by exists new.
Defined.

Lemma ApplyChanges_with_fresh_cache_witness :
  oci.zones ociClock 3 (ociProvider [] false) ociCached
  = (ociCached, Ret (ok (oci.cachedZones (oci.cache ociCached)))).
Proof.
  apply (ApplyChanges_with_fresh_cache ociClock 3 (ociProvider [] false)
           (mkChanges [epCom] [] [] []) ociCached).
  reflexivity.
Defined.

Lemma ApplyChanges_nil_means_every_batch_patched_witness :
  ∃ ops,
    changeOperations (ociProvider [] false) (mkChanges [epCom; epCname] [] [] [])
    = Some ops.
Proof.
  assert (∃ st',
            oci.ApplyChanges ociClock 3 (ociProvider [] false)
              (mkChanges [epCom; epCname] [] [] []) ociStart = (st', Ret tt))
    as (st' & Hrun) by (eexists; vm_compute; reflexivity).
  destruct (ApplyChanges_nil_means_every_batch_patched ociClock 3 (ociProvider [] false)
              _ _ _ eq_refl Hrun) as (ops & Hops & _).
  by exists ops.
Defined.

Lemma ApplyChanges_listing_failure_aborts_witness :
  snd (oci.ApplyChanges ociClock 3 ociRefusedProvider (mkChanges [epCom] [] [] []) ociStart)
  = Fail "fetching zones: listing zones in compartment-1: not authorized".
Proof.
  destruct (oci.ApplyChanges ociClock 3 ociRefusedProvider (mkChanges [epCom] [] [] [])
              ociStart) as [st' out] eqn:Hrun.
  assert (oci.events st'
          = oci.events ociStart ++ []
            ++ oci.Called (oci.ReqListZones
                             (oci.mkListZonesRequest "compartment-1" "GLOBAL" None))
                 (Some "not authorized") :: []) as Hev.
  { change st' with (fst (st', out)). rewrite <- Hrun. by vm_compute. }
  destruct (ApplyChanges_listing_failure_aborts ociClock _ _ _ _ _ _ _ _ _ _ Hrun Hev)
    as (Hout & _).
  exact Hout.
Defined.

End MoreExamples.
